(** * sevenbridges-go: range planners, transfer coordination, pagination
      and response metadata

    A shallow embedding of the parts of the client library that its
    specification makes claims about:
    - [getParts] (upload planner), [generateChunks] (download planner) and
      [getNumberOfChunks];
    - the goroutines of [Upload] and [Download] as labelled transition
      systems over the two channels and the wait group;
    - [Page], [Link] and [NewResponse]. *)

From Stdlib Require Import ZArith Lia List Bool Ascii String.
From Stdlib Require Import Floats.SpecFloat.
From stdpp Require Import base option list gmap strings.

Local Open Scope Z_scope.

(** ** Machine integers

    Go's [int64] (and [int] on 64-bit targets) is modelled as [Z]; every
    arithmetic result is brought back into range by [wrap64]. *)

Definition min_int64 : Z := - 2 ^ 63.
Definition max_int64 : Z := 2 ^ 63 - 1.

Definition wrap64 (z : Z) : Z := (z + 2 ^ 63) mod 2 ^ 64 - 2 ^ 63.

Definition in_int64 (z : Z) : Prop := min_int64 <= z <= max_int64.

(** Go errors are opaque values; only their presence matters here. *)
Inductive error : Type := Err (msg : string).

#[global] Instance error_eq_dec : EqDecision error.
Proof. solve_decision. Defined.

(** ** Constants of the download file *)

Definition KB : Z := 1024.
Definition MB : Z := 1024 * KB.
Definition GB : Z := 1024 * MB.
Definition TB : Z := 1024 * GB.
Definition PartSize : Z := 10 * MB.

(** ** [getNumberOfChunks]: a ceiling computed in binary64

    [int64(math.Ceil(float64(totalSize) / float64(partSize)))].  The
    floating-point operations are those of the Standard Library's
    executable IEEE-754 specification at precision 53. *)

Module Float64.

Definition prec : Z := 53.
Definition emax : Z := 1024.

(** [float64(z)] for an integer [z]: rounding to nearest, ties to even. *)
Definition of_int (z : Z) : spec_float := binary_normalize prec emax z 0 false.

Definition div (x y : spec_float) : spec_float := SFdiv prec emax x y.

(** The integer a finite float stands for when it has no fraction, and
    its ceiling and truncation otherwise. *)
Definition signed (s : bool) (m : positive) : Z :=
  if s then Z.neg m else Z.pos m.

Definition ceil_finite (s : bool) (m : positive) (e : Z) : Z :=
  if 0 <=? e then signed s m * 2 ^ e else - ((- signed s m) / 2 ^ (- e)).

Definition trunc_finite (s : bool) (m : positive) (e : Z) : Z :=
  if 0 <=? e then signed s m * 2 ^ e else Z.quot (signed s m) (2 ^ (- e)).

(** [math.Ceil]: zeros, infinities and NaN are returned unchanged; the
    ceiling of a finite binary64 is again a binary64, or a zero that keeps
    the sign. *)
Definition Ceil (x : spec_float) : spec_float :=
  match x with
  | S754_finite s m e => binary_normalize prec emax (ceil_finite s m e) 0 s
  | _ => x
  end.

(** [int64(x)]: truncation towards zero.  Go leaves the result open when
    the value does not fit; amd64 yields the smallest [int64]
    (CVTTSD2SQ), which is what is modelled. *)
Definition to_int64 (x : spec_float) : Z :=
  match x with
  | S754_zero _ => 0
  | S754_finite s m e =>
      let z := trunc_finite s m e in
      if (min_int64 <=? z) && (z <=? max_int64) then z else min_int64
  | _ => min_int64
  end.

End Float64.

Definition getNumberOfChunks (totalSize partSize : Z) : Z :=
  Float64.to_int64
    (Float64.Ceil
       (Float64.div (Float64.of_int totalSize) (Float64.of_int partSize))).

(** The exact integer ceiling of [n / p] for [p > 0]. *)
Definition ceil_div (n p : Z) : Z := (n + p - 1) / p.

(** ** [strconv.Atoi] and [strconv.ParseInt]

    Base 10 at 64 bits, after the contract package strconv documents: an
    empty string or one with an invalid digit gives value 0 and a syntax
    error; a well-formed number that does not fit gives the representable
    value of largest magnitude with that sign and a range error. *)

Module strconv.

Inductive NumError : Type := ErrSyntax | ErrRange.

#[global] Instance NumError_eq_dec : EqDecision NumError.
Proof. solve_decision. Defined.

Definition is_digit (c : ascii) : bool :=
  let n := Z.of_N (N_of_ascii c) in (48 <=? n) && (n <=? 57).

Definition digit_value (c : ascii) : Z := Z.of_N (N_of_ascii c) - 48.

Fixpoint digits (acc : Z) (s : string) : option Z :=
  match s with
  | EmptyString => Some acc
  | String c s' =>
      if is_digit c then digits (10 * acc + digit_value c) s' else None
  end.

(** The magnitude of a non-empty string of decimal digits. *)
Definition magnitude (s : string) : option Z :=
  match s with
  | EmptyString => None
  | _ => digits 0 s
  end.

Definition split_sign (s : string) : bool * string :=
  match s with
  | String "+" s' => (false, s')
  | String "-" s' => (true, s')
  | _ => (false, s)
  end.

Definition ParseInt (s : string) : Z * option NumError :=
  let '(neg, body) := split_sign s in
  match magnitude body with
  | None => (0, Some ErrSyntax)
  | Some un =>
      if neg then
        if 2 ^ 63 <? un then (min_int64, Some ErrRange) else (- un, None)
      else
        if 2 ^ 63 <=? un then (max_int64, Some ErrRange) else (un, None)
  end.

(** [int] is 64 bits wide on the targets considered. *)
Definition Atoi (s : string) : Z * option NumError := ParseInt s.

End strconv.

(** ** HTTP responses as the library reads them *)

Module http.

(** [http.Header]: canonical field name to its values, in order. *)
Record Response : Type := mkResponse {
  Header : gmap string (list string)
}.

Definition is_upper (c : ascii) : bool :=
  let n := Z.of_N (N_of_ascii c) in (65 <=? n) && (n <=? 90).
Definition is_lower (c : ascii) : bool :=
  let n := Z.of_N (N_of_ascii c) in (97 <=? n) && (n <=? 122).
Definition to_upper (c : ascii) : ascii :=
  if is_lower c then ascii_of_N (N_of_ascii c - 32) else c.
Definition to_lower (c : ascii) : ascii :=
  if is_upper c then ascii_of_N (N_of_ascii c + 32) else c.

Definition validHeaderFieldByte (c : ascii) : bool :=
  is_upper c || is_lower c || strconv.is_digit c
  || existsb (Ascii.eqb c) (list_ascii_of_string "!#$%&'*+-.^_`|~").

Fixpoint canonical_from (upper : bool) (s : string) : string :=
  match s with
  | EmptyString => EmptyString
  | String c s' =>
      String (if upper then to_upper c else to_lower c)
             (canonical_from (Ascii.eqb c "-") s')
  end.

(** [textproto.CanonicalMIMEHeaderKey]: first letter and letters after a
    hyphen in upper case, the others in lower case; a key with a byte that
    is not a token character is left as it is. *)
Definition CanonicalHeaderKey (s : string) : string :=
  if forallb validHeaderFieldByte (list_ascii_of_string s)
  then canonical_from true s else s.

(** [Header.Get]: the first value under the canonical key, or the empty
    string. *)
Definition Get (h : gmap string (list string)) (key : string) : string :=
  match h !! CanonicalHeaderKey key with
  | Some (v :: _) => v
  | _ => EmptyString
  end.

End http.

Definition headerRateLimit : string := "X-RateLimit-Limit".
Definition headerRateRemaining : string := "X-RateLimit-Remaining".
Definition headerRateReset : string := "X-RateLimit-Reset".
Definition headerAuthToken : string := "X-Sbg-Auth-Token".
Definition headerTotalMatchingQuery : string := "X-Total-Matching-Query".

(** ** pagination.go *)

Module Pagination.

Record Link : Type := mkLink {
  Href : string;
  Rel : string
}.



(** [Links] holds pointers that [NewPage] always allocates, so the values
    are links rather than possibly-nil pointers. *)
Record Page : Type := mkPage {
  TotalMatchingQuery : Z;
  Links : gmap string Link
}.



Section Parsers.

(** The two parsers the file calls into are taken as given:
    [url_query href] is [url.Parse(href)] followed by [URL.Query()], [None]
    when [url.Parse] reports an error; [link_ParseResponse] is
    [link.ParseResponse], from relation name to target URI. *)
Variable url_query : string -> option (gmap string (list string)).
Variable link_ParseResponse : http.Response -> gmap string string.



Definition NewPage (resp : http.Response) : Page :=
  let total := http.Get (http.Header resp) headerTotalMatchingQuery in
  let totalMatchingQuery :=
    if decide (total = EmptyString) then 0 else fst (strconv.Atoi total) in
  mkPage totalMatchingQuery
         (map_imap (fun rel uri => Some (mkLink uri rel))
                   (link_ParseResponse resp)).




(** ** response.go *)

(** [Reset] is [None] for the zero [Timestamp], otherwise the Unix
    seconds it was built from. *)
Record Rate : Type := mkRate {
  RateLimit : Z;
  Remaining : Z;
  Reset : option Z
}.

Definition Rate_zero : Rate := mkRate 0 0 None.

(** The three embedded pointers of [Response]; [None] is nil. *)
Record Response : Type := mkResponse {
  HTTP : http.Response;
  ResponsePage : option Page;
  ResponseRate : option Rate
}.

Definition getRateLimit (resp : http.Response) : Rate * option strconv.NumError :=
  let rate := Rate_zero in
  let limit := http.Get (http.Header resp) headerRateLimit in
  let '(rate, err) :=
    if decide (limit = EmptyString) then (rate, None)
    else let '(v, e) := strconv.Atoi limit in
         (mkRate v (Remaining rate) (Reset rate), e) in
  match err with
  | Some _ => (rate, err)
  | None =>
      let remaining := http.Get (http.Header resp) headerRateRemaining in
      let '(rate, err) :=
        if decide (remaining = EmptyString) then (rate, None)
        else let '(v, e) := strconv.Atoi remaining in
             (mkRate (RateLimit rate) v (Reset rate), e) in
      match err with
      | Some _ => (rate, err)
      | None =>
          let reset := http.Get (http.Header resp) headerRateReset in
          let rate :=
            if decide (reset = EmptyString) then rate
            else match strconv.ParseInt reset with
                 | (v, None) =>
                     if v =? 0 then rate
                     else mkRate (RateLimit rate) (Remaining rate) (Some v)
                 | (_, Some _) => rate
                 end in
          (rate, err)
      end
  end.

Definition getTotalMatchingQuery (resp : http.Response)
  : Z * option strconv.NumError :=
  let totalMatchingQuery := http.Get (http.Header resp) headerTotalMatchingQuery in
  if decide (totalMatchingQuery = EmptyString) then (0, None)
  else strconv.Atoi totalMatchingQuery.

(** [r.TotalMatchingQuery = v] assigns through the embedded [*Page]. *)
Definition set_TotalMatchingQuery (r : Response) (v : Z) : Response :=
  mkResponse (HTTP r)
             ((fun p => mkPage v (Links p)) <$> ResponsePage r)
             (ResponseRate r).

Definition NewResponse (resp : http.Response)
  : option Response * option strconv.NumError :=
  let r := mkResponse resp (Some (NewPage resp)) None in
  match getRateLimit resp with
  | (_, Some e) => (Some r, Some e)
  | (rate, None) =>
      let r := mkResponse (HTTP r) (ResponsePage r) (Some rate) in
      match getTotalMatchingQuery resp with
      | (_, Some e) => (Some r, Some e)
      | (totalMatchingQuery, None) =>
          (Some (set_TotalMatchingQuery r totalMatchingQuery), None)
      end
  end.

End Parsers.

End Pagination.

(** ** Channels, wait groups and call outcomes

    A buffered Go channel: a FIFO of at most [cap] values and a closed
    flag.  A send on a full channel blocks, a send on a closed channel
    panics, a receive on an empty channel blocks until the channel is
    closed.  A channel of capacity 0 passes values only to a receiver that
    is already waiting; [Upload] makes such channels only when it starts no
    worker, so that nothing can ever be handed over on them, and a send on
    them is modelled as blocked. *)

Module Chan.

Record chan (A : Type) : Type := mkChan {
  buf : list A;
  cap : nat;
  closed : bool
}.
Arguments mkChan {A} _ _ _.
Arguments buf {A} _.
Arguments cap {A} _.
Arguments closed {A} _.

Definition make {A : Type} (n : nat) : chan A := mkChan [] n false.

Inductive send_result (A : Type) : Type :=
| Sent (c : chan A)
| SendBlocked
| SendPanic.
Arguments Sent {A} _.
Arguments SendBlocked {A}.
Arguments SendPanic {A}.

Definition send {A : Type} (x : A) (c : chan A) : send_result A :=
  if closed c then SendPanic
  else if (length (buf c) <? cap c)%nat
       then Sent (mkChan (buf c ++ [x]) (cap c) (closed c))
       else SendBlocked.

Inductive recv_result (A : Type) : Type :=
| Received (x : A) (c : chan A)
| RecvBlocked
| RecvClosed.
Arguments Received {A} _ _.
Arguments RecvBlocked {A}.
Arguments RecvClosed {A}.

Definition recv {A : Type} (c : chan A) : recv_result A :=
  match buf c with
  | x :: b => Received x (mkChan b (cap c) (closed c))
  | [] => if closed c then RecvClosed else RecvBlocked
  end.

Definition close {A : Type} (c : chan A) : chan A :=
  mkChan (buf c) (cap c) true.

End Chan.

(** What a call that may fail came back with.  [Failure e true] is an
    error returned together with a nil [*Response] ([service.Do] when
    [DoCtx] fails), [Failure e false] an error next to a response
    ([NewResponse] failed); calls that return only an error ignore the
    flag. *)
Inductive outcome : Type :=
| Success (etag : string)
| Failure (e : error) (resp_nil : bool).

Definition intMin (a b : Z) : Z := if a <? b then a else b.

(** [for i := 0; i < bound; i++ { go worker }]: one entry per goroutine
    started; [fuel] bounds the number of turns from above. *)
Fixpoint go_loop {W : Type} (fuel : nat) (i bound : Z) (w : W) : list W :=
  match fuel with
  | O => []
  | S fuel' => if i <? bound then w :: go_loop fuel' (i + 1) bound w else []
  end.

(** ** The upload planner: [getParts] *)

Module Upload.

(** [part] of upload.go. *)
Record part : Type := mkPart {
  ID : Z;
  StartByte : Z;
  EndByte : Z;
  ETag : string;
  Error : option error
}.

(** The three locals of [getParts] that survive an iteration. *)
Record planner : Type := mkPlanner {
  pl_start : Z;
  pl_end : Z;
  pl_count : Z
}.

Definition planner_init : planner := mkPlanner 0 0 1.

(** One turn of [for end < fileSize { ... }]: [None] when the loop test
    fails, otherwise the part sent on [out] and the locals afterwards. *)
Definition getParts_iter (fileSize partSize : Z) (s : planner)
  : option (part * planner) :=
  if pl_end s <? fileSize then
    let e := wrap64 (pl_start s + partSize) in
    let e := if fileSize <? e then fileSize else e in
    Some (mkPart (pl_count s) (pl_start s) e EmptyString None,
          mkPlanner e e (wrap64 (pl_count s + 1)))
  else None.

(** The sequence of parts sent on [out], in order.  The loop need not
    terminate when the addition wraps, hence the fuel: [None] means the
    loop was still running when the fuel ran out. *)
Fixpoint getParts_run (fuel : nat) (fileSize partSize : Z) (s : planner)
  : option (list part) :=
  match getParts_iter fileSize partSize s with
  | None => Some []
  | Some (p, s') =>
      match fuel with
      | O => None
      | S fuel' => cons p <$> getParts_run fuel' fileSize partSize s'
      end
  end.

Definition getParts (fuel : nat) (fileSize partSize : Z) : option (list part) :=
  getParts_run fuel fileSize partSize planner_init.


(** *** The goroutines of [Upload]

    Parts are allocated by [getParts] and travel through both channels as
    pointers: [heap] holds the parts, a pointer is an index into it. *)

Definition ptr : Type := nat.

Inductive event : Type :=
| EvStat
| EvInitUpload
| EvDequeue (p : ptr)
| EvPartUploadInit (id : Z)
| EvOpen (id : Z)
| EvPartUpload (id : Z)
| EvPartReportUploaded (id : Z)
| EvPublish (p : ptr)
| EvResubmit (p : ptr)
| EvDone
| EvFinalize.

#[global] Instance event_eq_dec : EqDecision event.
Proof. solve_decision. Defined.


(** Where a [processPart] goroutine stands in its loop body. *)
Inductive worker_pc : Type :=
| WRecv
| WInit (p : ptr)
| WSendInitErr (p : ptr)
| WOpen (p : ptr)
| WTransfer (p : ptr)
| WSendUploadErr (p : ptr)
| WReport (p : ptr)
| WSendReportErr (p : ptr)
| WSendDone (p : ptr)
| WExit.

(** The anonymous goroutine that ranges over [report]. *)
Inductive monitor_pc : Type :=
| MRecv
| MResend (p : ptr)
| MExit.

(** [Upload] itself, from [wg.Wait()] on. *)
Inductive main_pc : Type :=
| MainWait
| MainCloseParts
| MainCloseReport
| MainSleep
| MainFinalize
| MainReturned (err : option error).

Record state : Type := mkState {
  fileSize : Z;
  partSize : Z;
  heap : list part;
  gen : option planner;
  parts_ch : Chan.chan ptr;
  report_ch : Chan.chan ptr;
  wg : Z;
  workers : list worker_pc;
  monitor : monitor_pc;
  main : main_pc;
  trace : list event;
  panicked : bool
}.

Definition set_heap (h : list part) (s : state) : state :=
  mkState (fileSize s) (partSize s) h (gen s) (parts_ch s) (report_ch s)
          (wg s) (workers s) (monitor s) (main s) (trace s) (panicked s).
Definition set_gen (g : option planner) (s : state) : state :=
  mkState (fileSize s) (partSize s) (heap s) g (parts_ch s) (report_ch s)
          (wg s) (workers s) (monitor s) (main s) (trace s) (panicked s).
Definition set_parts_ch (c : Chan.chan ptr) (s : state) : state :=
  mkState (fileSize s) (partSize s) (heap s) (gen s) c (report_ch s)
          (wg s) (workers s) (monitor s) (main s) (trace s) (panicked s).
Definition set_report_ch (c : Chan.chan ptr) (s : state) : state :=
  mkState (fileSize s) (partSize s) (heap s) (gen s) (parts_ch s) c
          (wg s) (workers s) (monitor s) (main s) (trace s) (panicked s).
Definition set_wg (n : Z) (s : state) : state :=
  mkState (fileSize s) (partSize s) (heap s) (gen s) (parts_ch s) (report_ch s)
          n (workers s) (monitor s) (main s) (trace s) (panicked s).
Definition set_worker (i : nat) (w : worker_pc) (s : state) : state :=
  mkState (fileSize s) (partSize s) (heap s) (gen s) (parts_ch s) (report_ch s)
          (wg s) (<[i := w]> (workers s)) (monitor s) (main s) (trace s)
          (panicked s).
Definition set_monitor (m : monitor_pc) (s : state) : state :=
  mkState (fileSize s) (partSize s) (heap s) (gen s) (parts_ch s) (report_ch s)
          (wg s) (workers s) m (main s) (trace s) (panicked s).
Definition set_main (m : main_pc) (s : state) : state :=
  mkState (fileSize s) (partSize s) (heap s) (gen s) (parts_ch s) (report_ch s)
          (wg s) (workers s) (monitor s) m (trace s) (panicked s).
Definition log (e : event) (s : state) : state :=
  mkState (fileSize s) (partSize s) (heap s) (gen s) (parts_ch s) (report_ch s)
          (wg s) (workers s) (monitor s) (main s) (trace s ++ [e]) (panicked s).
Definition panic (s : state) : state :=
  mkState (fileSize s) (partSize s) (heap s) (gen s) (parts_ch s) (report_ch s)
          (wg s) (workers s) (monitor s) (main s) (trace s) true.

Definition set_Error (e : option error) (x : part) : part :=
  mkPart (ID x) (StartByte x) (EndByte x) (ETag x) e.
Definition set_ETag (t : string) (x : part) : part :=
  mkPart (ID x) (StartByte x) (EndByte x) t (Error x).

(** The [ID] behind a pointer (0 for a pointer that was never allocated,
    which no run produces). *)
Definition id_of (s : state) (p : ptr) : Z :=
  match heap s !! p with
  | Some x => ID x
  | None => 0
  end.

(** [wg.Done()]: the program panics when the counter drops below zero. *)
Definition wg_Done (s : state) : state :=
  let s := log EvDone (set_wg (wg s - 1) s) in
  if wg s <? 0 then panic s else s.

(** The [getParts] goroutine: one turn of its loop, the send included. *)
Definition gen_step (s : state) : option state :=
  match gen s with
  | None => None
  | Some pl =>
      match getParts_iter (fileSize s) (partSize s) pl with
      | None => Some (set_gen None s)
      | Some (x, pl') =>
          let p := length (heap s) in
          match Chan.send p (parts_ch s) with
          | Chan.Sent c =>
              Some (set_gen (Some pl')
                      (set_parts_ch c (set_heap (heap s ++ [x]) s)))
          | Chan.SendBlocked => None
          | Chan.SendPanic => Some (panic s)
          end
      end
  end.

(** [report <- p] by worker [i], which then goes on at [next]. *)
Definition publish (i : nat) (p : ptr) (next : worker_pc) (s : state)
  : option state :=
  match Chan.send p (report_ch s) with
  | Chan.Sent c => Some (set_worker i next (log (EvPublish p) (set_report_ch c s)))
  | Chan.SendBlocked => None
  | Chan.SendPanic => Some (panic s)
  end.

(** [make([]byte, p.EndByte-p.StartByte)] in [partUpload] panics on a
    negative length. *)
Definition buffer_length (s : state) (p : ptr) : Z :=
  match heap s !! p with
  | Some x => wrap64 (EndByte x - StartByte x)
  | None => 0
  end.

(** One step of the [processPart] goroutine number [i]; [o] is what the
    call made in this step, if any, comes back with.  [partUpload] takes
    two steps: [os.Open] on the local file, then the transfer of the
    bytes read from it. *)
Definition worker_step (i : nat) (o : outcome) (s : state) : option state :=
  match workers s !! i with
  | None => None
  | Some WRecv =>
      match Chan.recv (parts_ch s) with
      | Chan.Received p c =>
          Some (set_worker i (WInit p) (log (EvDequeue p) (set_parts_ch c s)))
      | Chan.RecvBlocked => None
      | Chan.RecvClosed => Some (set_worker i WExit s)
      end
  | Some (WInit p) =>
      let s := log (EvPartUploadInit (id_of s p)) s in
      match o with
      | Success _ => Some (set_worker i (WOpen p) s)
      | Failure e _ =>
          Some (set_worker i (WSendInitErr p)
                  (set_heap (alter (set_Error (Some e)) p (heap s)) s))
      end
  | Some (WSendInitErr p) => publish i p (WOpen p) s
  | Some (WOpen p) =>
      let s := log (EvOpen (id_of s p)) s in
      match o with
      | Success _ =>
          if buffer_length s p <? 0 then Some (panic s)
          else Some (set_worker i (WTransfer p) s)
      | Failure e _ =>
          Some (set_worker i (WSendUploadErr p)
                  (set_heap (alter (set_Error (Some e)) p (heap s)) s))
      end
  | Some (WTransfer p) =>
      let s := log (EvPartUpload (id_of s p)) s in
      match o with
      | Success etag =>
          Some (set_worker i (WReport p)
                  (set_heap (alter (set_ETag etag) p (heap s)) s))
      | Failure e _ =>
          Some (set_worker i (WSendUploadErr p)
                  (set_heap (alter (set_Error (Some e)) p (heap s)) s))
      end
  | Some (WSendUploadErr p) => publish i p (WReport p) s
  | Some (WReport p) =>
      let s := log (EvPartReportUploaded (id_of s p)) s in
      match o with
      | Success _ => Some (set_worker i (WSendDone p) s)
      | Failure e true => Some (panic s)
      | Failure e false =>
          Some (set_worker i (WSendReportErr p)
                  (set_heap (alter (set_Error (Some e)) p (heap s)) s))
      end
  | Some (WSendReportErr p) => publish i p (WSendDone p) s
  | Some (WSendDone p) => publish i p WRecv s
  | Some WExit => None
  end.

(** The goroutine that ranges over [report]. *)
Definition monitor_step (s : state) : option state :=
  match monitor s with
  | MRecv =>
      match Chan.recv (report_ch s) with
      | Chan.Received p c =>
          match heap s !! p with
          | None => None
          | Some x =>
              match Error x with
              | Some _ =>
                  Some (set_monitor (MResend p)
                          (set_heap (alter (set_Error None) p (heap s))
                             (set_report_ch c s)))
              | None => Some (wg_Done (set_report_ch c s))
              end
          end
      | Chan.RecvBlocked => None
      | Chan.RecvClosed => Some (set_monitor MExit s)
      end
  | MResend p =>
      match Chan.send p (parts_ch s) with
      | Chan.Sent c =>
          Some (set_monitor MRecv (log (EvResubmit p) (set_parts_ch c s)))
      | Chan.SendBlocked => None
      | Chan.SendPanic => Some (panic s)
      end
  | MExit => None
  end.

(** [wg.Wait(); close(parts); close(report); time.Sleep(...);
    return u.uploadFinalize(ctx, info)]. *)
Definition main_step (o : outcome) (s : state) : option state :=
  match main s with
  | MainWait => if wg s =? 0 then Some (set_main MainCloseParts s) else None
  | MainCloseParts =>
      Some (set_main MainCloseReport (set_parts_ch (Chan.close (parts_ch s)) s))
  | MainCloseReport =>
      Some (set_main MainSleep (set_report_ch (Chan.close (report_ch s)) s))
  | MainSleep => Some (set_main MainFinalize s)
  | MainFinalize =>
      let s := log EvFinalize s in
      match o with
      | Success _ => Some (set_main (MainReturned None) s)
      | Failure e _ => Some (set_main (MainReturned (Some e)) s)
      end
  | MainReturned _ => None
  end.

(** Which goroutine moves, and what its call returns. *)
Inductive label : Type :=
| LGen
| LWorker (i : nat) (o : outcome)
| LMonitor
| LMain (o : outcome).

(** A panic in any goroutine ends the program. *)
Definition step (l : label) (s : state) : option state :=
  if panicked s then None
  else match l with
       | LGen => gen_step s
       | LWorker i o => worker_step i o s
       | LMonitor => monitor_step s
       | LMain o => main_step o s
       end.

Fixpoint run (ls : list label) (s : state) : option state :=
  match ls with
  | [] => Some s
  | l :: ls' =>
      match step l s with
      | Some s' => run ls' s'
      | None => None
      end
  end.

(** How [Upload] leaves its sequential prefix. *)
Inductive started : Type :=
| Returned (err : error) (tr : list event)
| Panicked (tr : list event)
| Running (s : state).

(** [Upload] up to the point where every goroutine has been started.
    [stat] is what [os.Stat] returns (the size, or an error), [init] what
    [initUpload] returns (the part size the server settled on, or an
    error); [initUpload] is only called when [os.Stat] succeeded.
    [make] panics on a negative capacity. *)
Definition Upload (stat : Z + error) (init : Z + error) : started :=
  match stat with
  | inr e => Returned e [EvStat]
  | inl size =>
      match init with
      | inr e => Returned e [EvStat; EvInitUpload]
      | inl psize =>
          let totalParts := getNumberOfChunks size psize in
          if intMin totalParts 8 <? 0 then Panicked [EvStat; EvInitUpload]
          else
            Running
              (mkState size psize []
                 (Some planner_init)
                 (Chan.make (Z.to_nat (intMin totalParts 8)))
                 (Chan.make (Z.to_nat (intMin totalParts 8)))
                 totalParts
                 (go_loop 8 0 (intMin totalParts 8) WRecv)
                 MRecv MainWait [EvStat; EvInitUpload] false)
      end
  end.

End Upload.

(** ** The download planner: [generateChunks] *)

Module Download.

(** [chunk] of download.go; chunks travel through the channels by value. *)
Record chunk : Type := mkChunk {
  StartByte : Z;
  EndByte : Z;
  PartNumber : Z;
  Error : option error
}.

#[global] Instance chunk_eq_dec : EqDecision chunk.
Proof. solve_decision. Defined.

(** The locals of [generateChunks]. *)
Record planner : Type := mkPlanner {
  pl_i : Z;
  pl_start : Z;
  pl_end : Z
}.

(** [start := int64(0); end := int64(PartSize - 1)]: the first end is taken
    from the package constant, not from the [partSize] argument. *)
Definition planner_init : planner := mkPlanner 0 0 (PartSize - 1).

(** One turn of [for i := int64(0); i < totalParts; i++ { ... }]. *)
Definition generateChunks_iter (totalParts totalSize partSize : Z) (s : planner)
  : option (chunk * planner) :=
  if pl_i s <? totalParts then
    let start' := wrap64 (pl_end s + 1) in
    let e := wrap64 (start' + partSize + 1) in
    let e := if totalSize <? e then totalSize else e in
    Some (mkChunk (pl_start s) (pl_end s) (pl_i s) None,
          mkPlanner (wrap64 (pl_i s + 1)) start' e)
  else None.

Fixpoint generateChunks_run (fuel : nat) (totalParts totalSize partSize : Z)
    (s : planner) : list chunk :=
  match fuel with
  | O => []
  | S fuel' =>
      match generateChunks_iter totalParts totalSize partSize s with
      | None => []
      | Some (c, s') =>
          c :: generateChunks_run fuel' totalParts totalSize partSize s'
      end
  end.

(** The counter runs from 0 to [totalParts], so [totalParts] turns are all
    the loop can make. *)
Definition generateChunks (totalParts totalSize partSize : Z) : list chunk :=
  generateChunks_run (Z.to_nat totalParts) totalParts totalSize partSize
    planner_init.


(** *** The goroutines of [Download] *)

Inductive event : Type :=
| EvInfo
| EvFileSize
| EvDequeue (c : chunk)
| EvOpenFile
| EvRangedGet (startByte endByte : Z)
| EvPublish (c : chunk)
| EvResubmit (c : chunk)
| EvClose
| EvDone.

#[global] Instance event_eq_dec : EqDecision event.
Proof. solve_decision. Defined.



(** Where a [downloadChunk] goroutine stands in its loop body. *)
Inductive worker_pc : Type :=
| DRecv
| DOpen (c : chunk)
| DSendOpenErr (c : chunk)
| DGet (c : chunk)
| DSend (c : chunk)
| DDone
| DExit.

Inductive monitor_pc : Type :=
| MRecv
| MResend (c : chunk)
| MExit.

(** [Download] itself, from [wg.Wait()] on. *)
Inductive main_pc : Type :=
| MainWait
| MainCloseReport
| MainCloseChunks
| MainReturned.

(** [created] tells whether the destination file exists: it does once an
    [os.OpenFile] with [O_CREATE] has succeeded. *)
Record state : Type := mkState {
  totalParts : Z;
  totalSize : Z;
  partSize : Z;
  gen : option planner;
  chunks_ch : Chan.chan chunk;
  report_ch : Chan.chan chunk;
  wg : Z;
  workers : list worker_pc;
  monitor : monitor_pc;
  main : main_pc;
  trace : list event;
  created : bool;
  panicked : bool
}.

Definition set_gen (g : option planner) (s : state) : state :=
  mkState (totalParts s) (totalSize s) (partSize s) g (chunks_ch s)
          (report_ch s) (wg s) (workers s) (monitor s) (main s) (trace s)
          (created s) (panicked s).
Definition set_chunks_ch (c : Chan.chan chunk) (s : state) : state :=
  mkState (totalParts s) (totalSize s) (partSize s) (gen s) c
          (report_ch s) (wg s) (workers s) (monitor s) (main s) (trace s)
          (created s) (panicked s).
Definition set_report_ch (c : Chan.chan chunk) (s : state) : state :=
  mkState (totalParts s) (totalSize s) (partSize s) (gen s) (chunks_ch s)
          c (wg s) (workers s) (monitor s) (main s) (trace s)
          (created s) (panicked s).
Definition set_wg (n : Z) (s : state) : state :=
  mkState (totalParts s) (totalSize s) (partSize s) (gen s) (chunks_ch s)
          (report_ch s) n (workers s) (monitor s) (main s) (trace s)
          (created s) (panicked s).
Definition set_worker (i : nat) (w : worker_pc) (s : state) : state :=
  mkState (totalParts s) (totalSize s) (partSize s) (gen s) (chunks_ch s)
          (report_ch s) (wg s) (<[i := w]> (workers s)) (monitor s) (main s)
          (trace s) (created s) (panicked s).
Definition set_monitor (m : monitor_pc) (s : state) : state :=
  mkState (totalParts s) (totalSize s) (partSize s) (gen s) (chunks_ch s)
          (report_ch s) (wg s) (workers s) m (main s) (trace s)
          (created s) (panicked s).
Definition set_main (m : main_pc) (s : state) : state :=
  mkState (totalParts s) (totalSize s) (partSize s) (gen s) (chunks_ch s)
          (report_ch s) (wg s) (workers s) (monitor s) m (trace s)
          (created s) (panicked s).
Definition log (e : event) (s : state) : state :=
  mkState (totalParts s) (totalSize s) (partSize s) (gen s) (chunks_ch s)
          (report_ch s) (wg s) (workers s) (monitor s) (main s)
          (trace s ++ [e]) (created s) (panicked s).
Definition set_created (s : state) : state :=
  mkState (totalParts s) (totalSize s) (partSize s) (gen s) (chunks_ch s)
          (report_ch s) (wg s) (workers s) (monitor s) (main s) (trace s)
          true (panicked s).
Definition panic (s : state) : state :=
  mkState (totalParts s) (totalSize s) (partSize s) (gen s) (chunks_ch s)
          (report_ch s) (wg s) (workers s) (monitor s) (main s) (trace s)
          (created s) true.

Definition set_Error (e : option error) (c : chunk) : chunk :=
  mkChunk (StartByte c) (EndByte c) (PartNumber c) e.

(** [wg.Done()]: the program panics when the counter drops below zero. *)
Definition wg_Done (s : state) : state :=
  let s := log EvDone (set_wg (wg s - 1) s) in
  if wg s <? 0 then panic s else s.

(** The [generateChunks] goroutine: one turn of its loop; it returns when
    the loop test fails. *)
Definition gen_step (s : state) : option state :=
  match gen s with
  | None => None
  | Some pl =>
      match generateChunks_iter (totalParts s) (totalSize s) (partSize s) pl with
      | None => Some (set_gen None s)
      | Some (c, pl') =>
          match Chan.send c (chunks_ch s) with
          | Chan.Sent ch => Some (set_gen (Some pl') (set_chunks_ch ch s))
          | Chan.SendBlocked => None
          | Chan.SendPanic => Some (panic s)
          end
      end
  end.

(** [report <- chunk] by worker [i], which then goes on at [next]. *)
Definition publish (i : nat) (c : chunk) (next : worker_pc) (s : state)
  : option state :=
  match Chan.send c (report_ch s) with
  | Chan.Sent ch =>
      Some (set_worker i next (log (EvPublish c) (set_report_ch ch s)))
  | Chan.SendBlocked => None
  | Chan.SendPanic => Some (panic s)
  end.

(** One step of the [downloadChunk] goroutine number [i]; [o] is what
    [os.OpenFile], respectively the ranged GET, comes back with. *)
Definition worker_step (i : nat) (o : outcome) (s : state) : option state :=
  match workers s !! i with
  | None => None
  | Some DRecv =>
      match Chan.recv (chunks_ch s) with
      | Chan.Received c ch =>
          Some (set_worker i (DOpen c) (log (EvDequeue c) (set_chunks_ch ch s)))
      | Chan.RecvBlocked => None
      | Chan.RecvClosed => Some (set_worker i DExit s)
      end
  | Some (DOpen c) =>
      let s := log EvOpenFile s in
      match o with
      | Success _ => Some (set_worker i (DGet c) (set_created s))
      | Failure e _ =>
          Some (set_worker i (DSendOpenErr (set_Error (Some e) c)) s)
      end
  | Some (DSendOpenErr c) => publish i c DRecv s
  | Some (DGet c) =>
      let s := log (EvRangedGet (StartByte c) (EndByte c)) s in
      match o with
      | Success _ => Some (set_worker i (DSend c) s)
      | Failure e _ => Some (set_worker i (DSend (set_Error (Some e) c)) s)
      end
  | Some (DSend c) => publish i c DDone s
  | Some DDone => Some (set_worker i DRecv (wg_Done (log EvClose s)))
  | Some DExit => None
  end.

(** The goroutine that ranges over [report]: a chunk without error is
    dropped. *)
Definition monitor_step (s : state) : option state :=
  match monitor s with
  | MRecv =>
      match Chan.recv (report_ch s) with
      | Chan.Received c ch =>
          match Error c with
          | Some _ =>
              Some (set_monitor (MResend (set_Error None c)) (set_report_ch ch s))
          | None => Some (set_report_ch ch s)
          end
      | Chan.RecvBlocked => None
      | Chan.RecvClosed => Some (set_monitor MExit s)
      end
  | MResend c =>
      match Chan.send c (chunks_ch s) with
      | Chan.Sent ch =>
          Some (set_monitor MRecv (log (EvResubmit c) (set_chunks_ch ch s)))
      | Chan.SendBlocked => None
      | Chan.SendPanic => Some (panic s)
      end
  | MExit => None
  end.

(** [wg.Wait(); close(report); close(chunks); return nil]. *)
Definition main_step (s : state) : option state :=
  match main s with
  | MainWait => if wg s =? 0 then Some (set_main MainCloseReport s) else None
  | MainCloseReport =>
      Some (set_main MainCloseChunks (set_report_ch (Chan.close (report_ch s)) s))
  | MainCloseChunks =>
      Some (set_main MainReturned (set_chunks_ch (Chan.close (chunks_ch s)) s))
  | MainReturned => None
  end.

Inductive label : Type :=
| LGen
| LWorker (i : nat) (o : outcome)
| LMonitor
| LMain.

(** A panic in any goroutine ends the program. *)
Definition step (l : label) (s : state) : option state :=
  if panicked s then None
  else match l with
       | LGen => gen_step s
       | LWorker i o => worker_step i o s
       | LMonitor => monitor_step s
       | LMain => main_step s
       end.

Fixpoint run (ls : list label) (s : state) : option state :=
  match ls with
  | [] => Some s
  | l :: ls' =>
      match step l s with
      | Some s' => run ls' s'
      | None => None
      end
  end.

(** [fileSize]: [http.Get] failing panics, so does a response without a
    Content-Length header; a value that does not parse counts as what
    [strconv.ParseInt] returns next to its error.  [None] is the panic. *)
Definition fileSize (get : gmap string (list string) + error) : option Z :=
  match get with
  | inr _ => None
  | inl header =>
      match header !! "Content-Length"%string with
      | Some (v :: _) => Some (fst (strconv.ParseInt v))
      | _ => None
      end
  end.

Inductive started : Type :=
| Returned (err : error) (tr : list event)
| Panicked (tr : list event)
| Running (s : state).

(** [Download] up to the point where every goroutine has been started.
    [info] is what [Info] returns (the URL, or an error), [get] what the
    [http.Get] inside [fileSize] returns.  [wg.Add] panics on a negative
    counter. *)
Definition Download (info : string + error)
    (get : gmap string (list string) + error) : started :=
  match info with
  | inr e => Returned e [EvInfo]
  | inl _ =>
      match fileSize get with
      | None => Panicked [EvInfo; EvFileSize]
      | Some size =>
          let totalChunks := getNumberOfChunks size PartSize in
          if totalChunks <? 0 then Panicked [EvInfo; EvFileSize]
          else
            Running
              (mkState totalChunks size PartSize
                 (Some planner_init)
                 (Chan.make 16) (Chan.make 16)
                 totalChunks
                 (go_loop 16 0 16 DRecv)
                 MRecv MainWait [EvInfo; EvFileSize] false false)
      end
  end.

End Download.

(** ** What the planners are expected to produce *)

(** Half-open parts laid end to end from [lo] to [hi], none of them
    empty. *)
Fixpoint tiles (lo hi : Z) (l : list Upload.part) : Prop :=
  match l with
  | [] => lo = hi
  | x :: l' =>
      Upload.StartByte x = lo /\ lo < Upload.EndByte x /\
      tiles (Upload.EndByte x) hi l'
  end.

(** Sequence numbers [c], [c + 1], ... in order. *)
Fixpoint numbered (c : Z) (l : list Upload.part) : Prop :=
  match l with
  | [] => True
  | x :: l' => Upload.ID x = c /\ numbered (c + 1) l'
  end.

(** [getParts] returns, having sent exactly the parts [l]. *)
Definition emits (fileSize partSize : Z) (l : list Upload.part) : Prop :=
  exists fuel, Upload.getParts fuel fileSize partSize = Some l.

(** The upload plan for [fileSize] bytes in parts of [partSize]. *)
Definition upload_plan_ok (fileSize partSize : Z) : Prop :=
  exists l,
    emits fileSize partSize l /\
    length l = Z.to_nat (ceil_div fileSize partSize) /\
    tiles 0 fileSize l /\
    numbered 1 l /\
    (fileSize = 0 -> l = []).

(** Inclusive ranges [[start, end]] numbered from [i], the first one
    starting at [lo], each as long as [partSize] allows and ending at the
    last byte of the file at the latest, each starting right after the
    one before. *)
Fixpoint inclusive_from (i lo totalSize partSize : Z) (l : list Download.chunk)
  : Prop :=
  match l with
  | [] => True
  | c :: l' =>
      Download.PartNumber c = i /\
      Download.StartByte c = lo /\
      Download.EndByte c = Z.min (lo + partSize - 1) (totalSize - 1) /\
      inclusive_from (i + 1) (Download.EndByte c + 1) totalSize partSize l'
  end.

(** The bytes covered by a list of inclusive ranges that starts at [lo]
    end at [hi - 1]. *)
Fixpoint covers (lo hi : Z) (l : list Download.chunk) : Prop :=
  match l with
  | [] => lo = hi
  | c :: l' =>
      Download.StartByte c = lo /\ lo <= Download.EndByte c /\
      covers (Download.EndByte c + 1) hi l'
  end.

Definition download_plan_ok (totalParts totalSize partSize : Z) : Prop :=
  let l := Download.generateChunks totalParts totalSize partSize in
  inclusive_from 0 0 totalSize partSize l /\ covers 0 totalSize l.

(** ** Reading the query string and the headers *)



(** The header [key] carries a value, and [strconv.Atoi] rejects it. *)
Definition rejected (h : gmap string (list string)) (key : string) : Prop :=
  http.Get h key <> EmptyString /\
  snd (strconv.Atoi (http.Get h key)) <> None.

(** The header [key] is there with a first value that [strconv.Atoi]
    rejects, the empty string included. *)
Definition present_not_numeric (h : gmap string (list string)) (key : string)
  : Prop :=
  exists v rest,
    h !! http.CanonicalHeaderKey key = Some (v :: rest) /\
    snd (strconv.Atoi v) <> None.

(** ** Runs of the two transfers *)

Definition content_length (v : string) : gmap string (list string) + error :=
  inl {[ "Content-Length"%string := [v] ]}.

(** A download whose size probe answers with Content-Length [v]. *)
Definition download_of (v : string) : Download.started :=
  Download.Download (inl "https://files/blob"%string) (content_length v).


(** An upload of [size] bytes for which the server settles on parts of
    [psize] bytes. *)
Definition upload_run (size psize : Z) (ls : list Upload.label)
  : option Upload.state :=
  match Upload.Upload (inl size) (inl psize) with
  | Upload.Running s => Upload.run ls s
  | _ => None
  end.

Definition ok : outcome := Success "".
Definition timeout : outcome := Failure (Err "timeout") true.

(** One chunk.  Worker 0 takes it, opens the file, the ranged GET times
    out, the worker publishes the chunk and calls [wg.Done]; the monitor
    takes the chunk and puts it back on the work queue. *)
Definition failed_get : list Download.label :=
  [Download.LGen;
   Download.LWorker 0 ok; Download.LWorker 0 ok; Download.LWorker 0 timeout;
   Download.LWorker 0 ok; Download.LWorker 0 ok;
   Download.LMonitor; Download.LMonitor].

(** Worker 0 takes the chunk again and this time everything succeeds. *)
Definition retried_get : list Download.label :=
  [Download.LWorker 0 ok; Download.LWorker 0 ok; Download.LWorker 0 ok;
   Download.LWorker 0 ok; Download.LWorker 0 ok].

(** [Download] passes [wg.Wait()], closes both channels and returns. *)
Definition download_returns : list Download.label :=
  [Download.LMain; Download.LMain; Download.LMain].

(** One part.  Worker 0 takes it, [partUploadInit] times out and the part
    is published; the worker goes on to [partUpload] (open, transfer) and
    [partReportUploaded], which succeed, and publishes the part again.  The
    monitor handles both publications. *)
Definition failed_negotiation : list Upload.label :=
  [Upload.LGen;
   Upload.LWorker 0 ok; Upload.LWorker 0 timeout; Upload.LWorker 0 ok;
   Upload.LWorker 0 ok; Upload.LWorker 0 ok;
   Upload.LMonitor;
   Upload.LWorker 0 ok;
   Upload.LMonitor;
   Upload.LWorker 0 ok;
   Upload.LMonitor].

(** The resubmitted part is processed once more, without any failure. *)
Definition second_attempt : list Upload.label :=
  [Upload.LWorker 0 ok; Upload.LWorker 0 ok; Upload.LWorker 0 ok;
   Upload.LWorker 0 ok; Upload.LWorker 0 ok; Upload.LWorker 0 ok;
   Upload.LMonitor].

Definition denied : outcome := Failure (Err "permission denied") true.

(** One part of a file that [os.Stat] accepts and [os.Open] refuses:
    worker 0 takes the part, negotiates its URL, and fails to open the
    file. *)
Definition unreadable_file : list Upload.label :=
  [Upload.LGen;
   Upload.LWorker 0 ok; Upload.LWorker 0 ok; Upload.LWorker 0 denied].




(** ** Sample pages and responses *)


(** A stand-in for [link.ParseResponse] that finds no link. *)
Definition sample_links (resp : http.Response) : gmap string string := ∅.


(** A response whose X-RateLimit-Limit header is there with an empty
    value. *)
Definition empty_limit_response : http.Response :=
  http.mkResponse {[ "X-Ratelimit-Limit"%string := [EmptyString] ]}.

(** The response of [TestNewResponse]. *)
Definition test_response : http.Response :=
  http.mkResponse {[ "X-Total-Matching-Query"%string := ["1"%string] ]}.

(** ** What the chunk count is expected to be *)

(** [getNumberOfChunks] is the exact ceiling, and it is the number of
    ranges either planner emits for these sizes. *)
Definition chunk_count_ok (totalSize partSize : Z) : Prop :=
  getNumberOfChunks totalSize partSize = ceil_div totalSize partSize /\
  (exists l, emits totalSize partSize l /\
             Z.of_nat (length l) = getNumberOfChunks totalSize partSize) /\
  Z.of_nat (length (Download.generateChunks
                      (getNumberOfChunks totalSize partSize)
                      totalSize partSize))
    = getNumberOfChunks totalSize partSize.

(** Inputs at the edge of [int64] and of binary64. *)
Definition big_file : Z := 2 ^ 63 - 1.
Definition big_part : Z := 2 ^ 62 + 1.
Definition huge_file : Z := 2 ^ 53 + 1.

(** * Properties *)

(** ** Arithmetic *)

Lemma wrap64_id z : in_int64 z -> wrap64 z = z.
Proof.
  unfold in_int64, wrap64, min_int64, max_int64. intros H.
  rewrite Z.mod_small; lia.
Qed.

Lemma ceil_div_step n p : 0 < p -> ceil_div (n - p) p = ceil_div n p - 1.
Proof.
  intros Hp. unfold ceil_div.
  replace (n - p + p - 1) with (n + p - 1 + (-1) * p) by lia.
  rewrite Z.div_add by lia. lia.
Qed.

Lemma ceil_div_last n p : 0 < n <= p -> ceil_div n p = 1.
Proof.
  intros H. unfold ceil_div. symmetry.
  apply (Z.div_unique_pos _ _ 1 (n - 1)); lia.
Qed.

Lemma ceil_div_0 p : 0 < p -> ceil_div 0 p = 0.
Proof. intros H. unfold ceil_div. apply Z.div_small. lia. Qed.

Lemma ceil_div_pos n p : 0 < p -> 0 < n -> 0 < ceil_div n p.
Proof.
  intros Hp Hn. unfold ceil_div. apply Z.div_str_pos. lia.
Qed.

Lemma ceil_div_nonpos n p : 0 < p -> ceil_div n p <= 0 -> n <= 0.
Proof.
  intros Hp H. destruct (Z_lt_le_dec 0 n) as [Hn|]; [|done].
  pose proof (ceil_div_pos n p Hp Hn). lia.
Qed.

(** ** The upload planner *)

Lemma getParts_iter_go n p s c :
  0 < p -> 0 <= s < n -> n + p <= max_int64 -> 1 <= c <= s + 1 ->
  Upload.getParts_iter n p (Upload.mkPlanner s s c) =
    Some (Upload.mkPart c s (Z.min (s + p) n) EmptyString None,
          Upload.mkPlanner (Z.min (s + p) n) (Z.min (s + p) n) (c + 1)).
Proof.
  intros Hp Hs Hn Hc. unfold Upload.getParts_iter.
  cbn [Upload.pl_end Upload.pl_start Upload.pl_count].
  destruct (Z.ltb_spec s n) as [_|]; [|lia].
  rewrite !wrap64_id by (unfold in_int64, min_int64, max_int64 in *; lia).
  destruct (Z.ltb_spec n (s + p)); do 3 f_equal; lia.
Qed.

Lemma getParts_iter_stop n p s c :
  n <= s -> Upload.getParts_iter n p (Upload.mkPlanner s s c) = None.
Proof.
  intros H. unfold Upload.getParts_iter. cbn.
  destruct (Z.ltb_spec s n); [lia|done].
Qed.

(** From any point [s] the loop reaches, it makes [ceil ((n - s) / p)]
    more turns, and the parts of those turns tile [[s, n)]. *)
Lemma getParts_run_plan k : forall n p s c,
  0 < p -> 0 <= s <= n -> n + p <= max_int64 -> 1 <= c <= s + 1 ->
  Z.to_nat (ceil_div (n - s) p) = k ->
  exists l,
    (forall fuel, (k <= fuel)%nat ->
       Upload.getParts_run fuel n p (Upload.mkPlanner s s c) = Some l) /\
    length l = k /\ tiles s n l /\ numbered c l.
Proof.
  induction k as [|k IH]; intros n p s c Hp Hs Hn Hc Hk.
  - assert (n = s) as ->.
    { assert (n - s <= 0) by (apply (ceil_div_nonpos _ p); lia). lia. }
    exists []. repeat split.
    intros fuel _. destruct fuel; cbn [Upload.getParts_run];
      by rewrite getParts_iter_stop by lia.
  - assert (s < n) as Hlt.
    { destruct (Z_lt_le_dec s n); [done|].
      assert (n = s) as -> by lia.
      rewrite Z.sub_diag, ceil_div_0 in Hk by done. done. }
    destruct (IH n p (Z.min (s + p) n) (c + 1))
      as (l & Hrun & Hlen & Htl & Hnum); [done | lia | done | lia | |].
    { destruct (Z.min_spec (s + p) n) as [[? ->]|[? ->]].
      - replace (n - (s + p)) with (n - s - p) by lia.
        rewrite ceil_div_step by done. lia.
      - rewrite Z.sub_diag, ceil_div_0 by done.
        rewrite ceil_div_last in Hk by lia. lia. }
    exists (Upload.mkPart c s (Z.min (s + p) n) EmptyString None :: l).
    repeat split; cbn; try done; try lia.
    intros fuel Hf. destruct fuel as [|fuel]; [lia|].
    cbn [Upload.getParts_run]. rewrite getParts_iter_go by (done || lia).
    rewrite Hrun by lia. done.
Qed.

Lemma getParts_plan n p :
  0 <= n -> 0 < p -> n + p <= max_int64 ->
  exists l,
    (forall fuel, (Z.to_nat (ceil_div n p) <= fuel)%nat ->
       Upload.getParts fuel n p = Some l) /\
    length l = Z.to_nat (ceil_div n p) /\ tiles 0 n l /\ numbered 1 l.
Proof.
  intros Hn Hp Hb.
  destruct (getParts_run_plan (Z.to_nat (ceil_div n p)) n p 0 1)
    as (l & Hrun & Hlen & Htl & Hnum); try done; try lia.
  { by rewrite Z.sub_0_r. }
  by exists l.
Qed.

(** C4, as amended: for every [totalSize >= 0] and [partSize > 0] whose sum
    fits in an [int64], [getParts] returns after emitting exactly
    [ceil (totalSize / partSize)] half-open parts that tile
    [[0, totalSize)] without gap or overlap, numbered 1, 2, ... in order;
    for [totalSize = 0] it emits none. *)
Theorem getParts_partitions n p :
  0 <= n -> 0 < p -> n + p <= max_int64 -> upload_plan_ok n p.
Proof.
  intros Hn Hp Hb.
  destruct (getParts_plan n p) as (l & Hrun & Hlen & Htl & Hnum); try done.
  exists l. repeat split; try done.
  - exists (Z.to_nat (ceil_div n p)). by apply Hrun.
  - intros ->. rewrite ceil_div_0 in Hlen by done. by destruct l.
Qed.

Lemma getParts_partitions_witness : upload_plan_ok (25 * MB) PartSize.
Proof.
  apply (getParts_partitions (25 * MB) PartSize); vm_compute; congruence.
Defined.

Lemma getParts_run_cons fuel n p s x s' l :
  Upload.getParts_iter n p s = Some (x, s') ->
  Upload.getParts_run fuel n p s = Some l ->
  exists fuel' l', fuel = S fuel' /\ l = x :: l' /\
                   Upload.getParts_run fuel' n p s' = Some l'.
Proof.
  intros Hi Hr. destruct fuel as [|fuel']; cbn [Upload.getParts_run] in Hr;
    rewrite Hi in Hr; [done|].
  destruct (Upload.getParts_run fuel' n p s') as [l'|] eqn:E; [|done].
  exists fuel', l'. by simplify_eq/=.
Qed.

(** C4, as stated, fails where [start + partSize] wraps: a file of
    [2^63 - 1] bytes in parts of [2^62 + 1] bytes should give two parts,
    but the second addition wraps to a negative end and the loop goes on
    to a third part. *)
Lemma getParts_wraps : ~ upload_plan_ok big_file big_part.
Proof.
  intros (l & (fuel & Hrun) & Hlen & _).
  unfold Upload.getParts in Hrun.
  eapply getParts_run_cons in Hrun as (f1 & l1 & Hf1 & Hl1 & Hrun);
    [|vm_compute; reflexivity].
  eapply getParts_run_cons in Hrun as (f2 & l2 & Hf2 & Hl2 & Hrun);
    [|vm_compute; reflexivity].
  eapply getParts_run_cons in Hrun as (f3 & l3 & Hf3 & Hl3 & Hrun);
    [|vm_compute; reflexivity].
  subst l l1 l2. cbn [length] in Hlen.
  replace (Z.to_nat (ceil_div big_file big_part)) with 2%nat in Hlen
    by (vm_compute; reflexivity).
  lia.
Qed.

(** ** The download planner *)

Lemma generateChunks_run_length fuel : forall totalParts n p s,
  0 <= Download.pl_i s ->
  totalParts <= max_int64 ->
  Download.pl_i s + Z.of_nat fuel = totalParts ->
  length (Download.generateChunks_run fuel totalParts n p s) = fuel.
Proof.
  induction fuel as [|fuel IH]; intros totalParts n p s Hi Hmax Hsum;
    cbn [Download.generateChunks_run]; [done|].
  unfold Download.generateChunks_iter.
  destruct (Z.ltb_spec (Download.pl_i s) totalParts); [|lia].
  cbn [length]. f_equal. apply IH; cbn [Download.pl_i];
    rewrite ?wrap64_id by (unfold in_int64, min_int64, max_int64 in *; lia);
    lia.
Qed.

(** [generateChunks] sends as many chunks as it is told to. *)
Lemma generateChunks_length totalParts n p :
  totalParts <= max_int64 ->
  length (Download.generateChunks totalParts n p) = Z.to_nat totalParts.
Proof.
  intros Hmax. unfold Download.generateChunks.
  destruct (Z_lt_le_dec totalParts 0) as [Hneg|Hpos].
  - replace (Z.to_nat totalParts) with 0%nat by lia. reflexivity.
  - apply generateChunks_run_length; cbn; lia.
Qed.

(** C1 at 25 MB in parts of 10 MB, the sizes of the specification's own
    scenario: three ranges are planned, the first from the package
    constant, the later ones with [start + partSize + 1] capped at
    [totalSize].  The second range ends at byte 20971521 instead of
    20971519 and the last one at byte 26214400, one past the end of the
    file, so the ranges are not the inclusive plan the claim describes. *)
Theorem generateChunks_drifts :
  getNumberOfChunks (25 * MB) PartSize = 3 /\
  Download.generateChunks 3 (25 * MB) PartSize =
    [Download.mkChunk 0 10485759 0 None;
     Download.mkChunk 10485760 20971521 1 None;
     Download.mkChunk 20971522 26214400 2 None] /\
  ~ download_plan_ok 3 (25 * MB) PartSize.
Proof.
  split; [vm_compute; reflexivity|]. split; [vm_compute; reflexivity|].
  intros [H _]. vm_compute in H.
  destruct H as (_ & _ & _ & _ & _ & H & _). discriminate H.
Qed.

(** ** Starting the workers *)

Lemma go_loop_length {W : Type} (w : W) fuel : forall i bound,
  0 <= i -> bound <= i + Z.of_nat fuel ->
  length (go_loop fuel i bound w) = Z.to_nat (bound - i).
Proof.
  induction fuel as [|fuel IH]; intros i bound Hi Hb; cbn [go_loop].
  - cbn. lia.
  - destruct (Z.ltb_spec i bound).
    + cbn [length]. rewrite IH by lia. lia.
    + cbn. lia.
Qed.

Lemma intMin_min a b : intMin a b = Z.min a b.
Proof. unfold intMin. destruct (Z.ltb_spec a b); lia. Qed.

(** C5, as amended: an upload that gets as far as starting its goroutines
    starts [min (8, totalParts)] workers, [totalParts] being the count the
    wait group starts from; a download starts 16 workers whatever the
    number of ranges. *)
Theorem workers_spawned :
  (forall stat init s,
     Upload.Upload stat init = Upload.Running s ->
     length (Upload.workers s) = Z.to_nat (Z.min 8 (Upload.wg s))) /\
  (forall info get s,
     Download.Download info get = Download.Running s ->
     length (Download.workers s) = 16%nat).
Proof.
  split.
  - intros [size|e] [psize|e'] s H; unfold Upload.Upload in H; try done.
    destruct (Z.ltb_spec (intMin (getNumberOfChunks size psize) 8) 0); [done|].
    set (ws := go_loop _ _ _ _) in H. injection H as <-.
    cbn [Upload.workers Upload.wg]. subst ws.
    rewrite go_loop_length; rewrite intMin_min in *; lia.
  - intros [url|e] get s H; unfold Download.Download in H; [|done].
    destruct (Download.fileSize get) as [size|]; [|done].
    destruct (getNumberOfChunks size PartSize <? 0); [done|].
    injection H as <-. reflexivity.
Qed.

Lemma workers_spawned_witness :
  (exists s, Upload.Upload (inl (25 * MB)) (inl PartSize) = Upload.Running s /\
             length (Upload.workers s) = Z.to_nat (Z.min 8 (Upload.wg s))) /\
  (exists s, download_of "26214400" = Download.Running s /\
             length (Download.workers s) = 16%nat).
Proof.
  split.
  - eexists. split; [vm_compute; reflexivity|].
    eapply (proj1 workers_spawned (inl (25 * MB)) (inl PartSize)).
    vm_compute. reflexivity.
  - eexists. split; [vm_compute; reflexivity|].
    eapply (proj2 workers_spawned (inl "https://files/blob"%string)
              (content_length "26214400")).
    vm_compute. reflexivity.
Defined.

(** C5, as stated, fails for downloads: a download of 25 MB has three
    ranges and still starts 16 workers, not [min (16, 3)]. *)
Lemma download_spawns_sixteen :
  exists s, download_of "26214400" = Download.Running s /\
            Download.wg s = 3 /\
            length (Download.workers s) <> Z.to_nat (Z.min 16 (Download.wg s)).
Proof.
  eexists. split; [vm_compute; reflexivity|]. split; [reflexivity|].
  vm_compute. lia.
Qed.

(** ** Pre-flight failure of an upload *)


(** A file that [os.Stat] accepts and [os.Open] refuses is another
    matter: the failure shows only inside [partUpload], after the session
    was initialised and the part's URL negotiated, and [Upload] has not
    returned. *)
Lemma unreadable_file_reaches_network :
  exists s,
    upload_run 5 10 unreadable_file = Some s /\
    Upload.trace s =
      [Upload.EvStat; Upload.EvInitUpload; Upload.EvDequeue 0%nat;
       Upload.EvPartUploadInit 1; Upload.EvOpen 1] /\
    Upload.main s = Upload.MainWait.
Proof.
  eexists. split; [vm_compute; reflexivity|]. split; vm_compute; reflexivity.
Qed.

(** ** The retry loop of an upload *)

(** What the monitor of an upload does with one result: a part that
    carries an error has the error cleared and is held for resubmission,
    the counter untouched; a part without error counts the wait group
    down. *)
Lemma upload_monitor_result s s' (p : Upload.ptr) c x :
  Upload.monitor s = Upload.MRecv ->
  Chan.recv (Upload.report_ch s) = Chan.Received p c ->
  Upload.heap s !! p = Some x ->
  Upload.monitor_step s = Some s' ->
  match Upload.Error x with
  | Some _ =>
      Upload.wg s' = Upload.wg s /\
      Upload.monitor s' = Upload.MResend p /\
      Upload.heap s' !! p = Some (Upload.set_Error None x)
  | None =>
      Upload.wg s' = Upload.wg s - 1 /\
      Upload.monitor s' = Upload.MRecv /\
      Upload.heap s' = Upload.heap s
  end.
Proof.
  intros Hm Hr Hp. unfold Upload.monitor_step. rewrite Hm, Hr, Hp.
  destruct (Upload.Error x) as [e|]; intros [= <-].
  - cbn [Upload.wg Upload.monitor Upload.heap Upload.set_monitor
         Upload.set_heap Upload.set_report_ch].
    repeat split. unfold Upload.ptr in *.
    rewrite list_lookup_alter_eq, Hp. reflexivity.
  - unfold Upload.wg_Done. cbn.
    destruct (Upload.wg s - 1 <? 0); cbn; done.
Qed.

(** The held part goes back on the work queue as the same pointer. *)
Lemma upload_monitor_resend s s' (p : Upload.ptr) :
  Upload.monitor s = Upload.MResend p ->
  Upload.monitor_step s = Some s' ->
  Upload.panicked s' = false ->
  Chan.buf (Upload.parts_ch s') = Chan.buf (Upload.parts_ch s) ++ [p] /\
  Upload.wg s' = Upload.wg s /\
  Upload.heap s' = Upload.heap s.
Proof.
  intros Hm. unfold Upload.monitor_step, Chan.send. rewrite Hm.
  destruct (Chan.closed (Upload.parts_ch s)).
  - intros [= <-]. cbn. done.
  - destruct (_ <? _)%nat; [|done]. intros [= <-]. cbn. done.
Qed.

(** C3 on an upload of one part whose [partUploadInit] fails once.  The
    worker publishes the part after the failure, then calls [partUpload]
    and [partReportUploaded] all the same and publishes the part a second
    time (the trace shows two [EvPublish] after a single [EvDequeue]).
    The monitor resubmits the part for the first publication and counts
    the wait group down for the second, the error having been cleared
    through the shared pointer: the counter is at zero while the part is
    back on the work queue.  When the resubmitted part has been processed
    the counter drops to -1 and the program panics. *)
Theorem processPart_publishes_twice :
  exists s1 s2,
    upload_run 5 10 failed_negotiation = Some s1 /\
    Upload.trace s1 =
      [Upload.EvStat; Upload.EvInitUpload;
       Upload.EvDequeue 0%nat; Upload.EvPartUploadInit 1;
       Upload.EvPublish 0%nat;
       Upload.EvOpen 1; Upload.EvPartUpload 1; Upload.EvPartReportUploaded 1;
       Upload.EvResubmit 0%nat; Upload.EvPublish 0%nat; Upload.EvDone] /\
    Upload.wg s1 = 0 /\
    Chan.buf (Upload.parts_ch s1) = [0%nat] /\
    Upload.run second_attempt s1 = Some s2 /\
    Upload.wg s2 = -1 /\
    Upload.panicked s2 = true.
Proof.
  do 2 eexists.
  do 6 (split; [vm_compute; reflexivity|]).
  vm_compute; reflexivity.
Qed.

(** ** The retry loop of a download *)

(** C2 on a download of one chunk whose ranged GET fails once.  The
    worker publishes the chunk with its error and then calls [wg.Done]:
    the counter goes from 1 to 0 for a result that carries an error, and
    the monitor puts the same range back on the work queue.  From there
    [Download] may return although the range was never fetched; and when
    the resubmitted chunk succeeds, the second [wg.Done] takes the counter
    to -1 and the program panics. *)
Theorem download_counts_failed_get :
  exists s0 s1 s2 s3,
    download_of "1" = Download.Running s0 /\
    Download.wg s0 = 1 /\
    Download.run failed_get s0 = Some s1 /\
    Download.trace s1 =
      [Download.EvInfo; Download.EvFileSize;
       Download.EvDequeue (Download.mkChunk 0 10485759 0 None);
       Download.EvOpenFile; Download.EvRangedGet 0 10485759;
       Download.EvPublish
         (Download.mkChunk 0 10485759 0 (Some (Err "timeout")));
       Download.EvClose; Download.EvDone;
       Download.EvResubmit (Download.mkChunk 0 10485759 0 None)] /\
    Download.wg s1 = 0 /\
    Chan.buf (Download.chunks_ch s1) = [Download.mkChunk 0 10485759 0 None] /\
    Download.run download_returns s1 = Some s2 /\
    Download.main s2 = Download.MainReturned /\
    Download.run retried_get s1 = Some s3 /\
    Download.wg s3 = -1 /\
    Download.panicked s3 = true.
Proof.
  do 4 eexists.
  do 10 (split; [vm_compute; reflexivity|]).
  vm_compute; reflexivity.
Qed.

(** ** A download of nothing *)

Module DownloadFacts.
Import Download.












End DownloadFacts.

(** ** Numbers in query strings and headers *)

Module StrconvFacts.
Import strconv.



Lemma Atoi_empty : Atoi EmptyString = (0, Some ErrSyntax).
Proof. reflexivity. Qed.

End StrconvFacts.

Module PaginationFacts.
Import Pagination.

Section Parsers.
Variable url_query : string -> option (gmap string (list string)).
Variable link_ParseResponse : http.Response -> gmap string string.






Lemma getRateLimit_error (resp : http.Response) :
  let h := http.Header resp in
  snd (getRateLimit resp) <> None <->
  rejected h headerRateLimit \/ rejected h headerRateRemaining.
Proof.
  cbn zeta. unfold getRateLimit, rejected.
  destruct (decide (http.Get (http.Header resp) headerRateLimit = EmptyString))
    as [E1|E1];
    [|destruct (strconv.Atoi (http.Get (http.Header resp) headerRateLimit))
        as [v1 [e1|]]; [cbn; intuition congruence|]];
    (destruct (decide (http.Get (http.Header resp) headerRateRemaining
                       = EmptyString)) as [E2|E2];
     [|destruct (strconv.Atoi (http.Get (http.Header resp) headerRateRemaining))
         as [v2 [e2|]]; [cbn; intuition congruence|]]);
    cbn; intuition congruence.
Qed.

Lemma getRateLimit_absent (resp : http.Response) :
  let h := http.Header resp in
  http.Get h headerRateLimit = EmptyString ->
  http.Get h headerRateRemaining = EmptyString ->
  http.Get h headerRateReset = EmptyString ->
  getRateLimit resp = (Rate_zero, None).
Proof.
  cbn zeta. intros E1 E2 E3. unfold getRateLimit. by rewrite E1, E2, E3.
Qed.

Lemma getRateLimit_reset (resp : http.Response) :
  let h := http.Header resp in
  snd (strconv.ParseInt (http.Get h headerRateReset)) <> None ->
  snd (getRateLimit resp) = None ->
  Reset (fst (getRateLimit resp)) = None.
Proof.
  cbn zeta. unfold getRateLimit. intros Hbad.
  destruct (decide (http.Get (http.Header resp) headerRateLimit = EmptyString));
    [|destruct (strconv.Atoi (http.Get (http.Header resp) headerRateLimit))
        as [v1 [e1|]]; [done|]];
    (destruct (decide (http.Get (http.Header resp) headerRateRemaining
                       = EmptyString));
     [|destruct (strconv.Atoi (http.Get (http.Header resp) headerRateRemaining))
         as [v2 [e2|]]; [done|]]);
    cbn;
    destruct (decide (http.Get (http.Header resp) headerRateReset = EmptyString));
    try done;
    destruct (strconv.ParseInt (http.Get (http.Header resp) headerRateReset))
      as [v3 [e3|]]; done.
Qed.

Lemma getTotalMatchingQuery_error (resp : http.Response) :
  snd (getTotalMatchingQuery resp) <> None <->
  rejected (http.Header resp) headerTotalMatchingQuery.
Proof.
  unfold getTotalMatchingQuery, rejected.
  destruct (decide (_ = EmptyString)); cbn; intuition congruence.
Qed.

(** The shape of [NewResponse]'s result in terms of its two helpers. *)
Lemma NewResponse_cases (resp : http.Response) :
  let page := Some (NewPage link_ParseResponse resp) in
  NewResponse link_ParseResponse resp =
    match snd (getRateLimit resp), snd (getTotalMatchingQuery resp) with
    | Some e, _ => (Some (mkResponse resp page None), Some e)
    | None, Some e =>
        (Some (mkResponse resp page (Some (fst (getRateLimit resp)))), Some e)
    | None, None =>
        (Some (set_TotalMatchingQuery
                 (mkResponse resp page (Some (fst (getRateLimit resp))))
                 (fst (getTotalMatchingQuery resp))), None)
    end.
Proof.
  cbn zeta. unfold NewResponse.
  destruct (getRateLimit resp) as [rate [e|]]; [done|].
  by destruct (getTotalMatchingQuery resp) as [v [e|]].
Qed.

(** C10, as amended: [NewResponse] always returns a non-nil [*Response].
    Its error is non-nil exactly when one of X-RateLimit-Limit,
    X-RateLimit-Remaining and X-Total-Matching-Query carries a non-empty
    value that [strconv.Atoi] rejects.  When [Header.Get] returns the
    empty string for all four headers (absent, or there with an empty
    value) the error is nil, the rate is the zero [Rate] and
    [TotalMatchingQuery] is 0.  An X-RateLimit-Reset value that does not
    parse raises no error and leaves [Reset] at its zero value. *)
Theorem NewResponse_error_iff (resp : http.Response) :
  let h := http.Header resp in
  let out := NewResponse link_ParseResponse resp in
  (exists r, fst out = Some r /\
     (http.Get h headerRateLimit = EmptyString ->
      http.Get h headerRateRemaining = EmptyString ->
      http.Get h headerRateReset = EmptyString ->
      http.Get h headerTotalMatchingQuery = EmptyString ->
      snd out = None /\ ResponseRate r = Some Rate_zero /\
      TotalMatchingQuery <$> ResponsePage r = Some 0) /\
     (snd (strconv.ParseInt (http.Get h headerRateReset)) <> None ->
      forall rate, ResponseRate r = Some rate -> Reset rate = None)) /\
  (snd out <> None <->
     rejected h headerRateLimit \/ rejected h headerRateRemaining \/
     rejected h headerTotalMatchingQuery).
Proof.
  cbn zeta. rewrite NewResponse_cases.
  pose proof (getRateLimit_error resp) as HR.
  pose proof (getTotalMatchingQuery_error resp) as HT.
  pose proof (getRateLimit_reset resp) as HS.
  pose proof (getRateLimit_absent resp) as HA.
  cbn zeta in *.
  split.
  - destruct (snd (getRateLimit resp)) as [e|] eqn:ER.
    { eexists. split; [reflexivity|]. cbn. split.
      - intros E1 E2 E3 _. rewrite HA in ER by done. done.
      - done. }
    destruct (snd (getTotalMatchingQuery resp)) as [e|] eqn:ET.
    { eexists. split; [reflexivity|]. cbn. split.
      - intros _ _ _ E4. unfold getTotalMatchingQuery in ET.
        rewrite E4 in ET. done.
      - intros Hbad rate [= <-]. by apply HS. }
    eexists. split; [reflexivity|]. cbn. split.
    + intros E1 E2 E3 E4. rewrite HA by done.
      unfold getTotalMatchingQuery. rewrite E4. done.
    + intros Hbad rate [= <-]. by apply HS.
  - destruct (snd (getRateLimit resp)) as [e|];
      destruct (snd (getTotalMatchingQuery resp)) as [e'|]; cbn; intuition congruence.
Qed.

End Parsers.
End PaginationFacts.

(** [TestNewResponse]: a response with only X-Total-Matching-Query: 1
    converts without error. *)
Example TestNewResponse :
  exists r,
    Pagination.NewResponse sample_links test_response = (Some r, None) /\
    Pagination.TotalMatchingQuery <$> Pagination.ResponsePage r = Some 1 /\
    Pagination.ResponseRate r = Some Pagination.Rate_zero.
Proof. eexists. split; [vm_compute; reflexivity|]. split; reflexivity. Qed.

(** C10, as stated, fails on a header that is there with an empty value:
    the empty string is not a number, yet the guard [limit != ""] skips
    the conversion and no error is returned. *)
Lemma NewResponse_empty_value :
  ~ (snd (Pagination.NewResponse sample_links empty_limit_response) <> None <->
     present_not_numeric (http.Header empty_limit_response) headerRateLimit \/
     present_not_numeric (http.Header empty_limit_response)
       headerRateRemaining \/
     present_not_numeric (http.Header empty_limit_response)
       headerTotalMatchingQuery).
Proof.
  intros [_ H]. apply H; [|vm_compute; reflexivity].
  left. exists EmptyString, []. split; [vm_compute; reflexivity|].
  vm_compute. discriminate.
Qed.


Lemma NewResponse_error_iff_witness :
  snd (Pagination.NewResponse sample_links test_response) <> None <->
  rejected (http.Header test_response) headerRateLimit \/
  rejected (http.Header test_response) headerRateRemaining \/
  rejected (http.Header test_response) headerTotalMatchingQuery.
Proof.
  exact (proj2 (PaginationFacts.NewResponse_error_iff sample_links
                  test_response)).
Defined.

(** ** The chunk count in binary64 *)

Module Float64Facts.
Import Float64.

Lemma digits2_pos_size p : digits2_pos p = Pos.size p.
Proof. induction p; cbn; congruence. Qed.

Lemma digits_bounds p :
  2 ^ (Z.pos (digits2_pos p) - 1) <= Z.pos p < 2 ^ Z.pos (digits2_pos p).
Proof.
  rewrite digits2_pos_size.
  pose proof (Pos.size_gt p) as Hgt. pose proof (Pos.size_le p) as Hle.
  apply Pos2Z.pos_lt_pos in Hgt. apply Pos2Z.pos_le_pos in Hle.
  rewrite Pos2Z.inj_pow in Hgt, Hle.
  rewrite (Pos2Z.inj_xO p) in Hle.
  assert (2 ^ Z.pos (Pos.size p) = 2 * 2 ^ (Z.pos (Pos.size p) - 1)) as E.
  { rewrite <- Z.pow_succ_r by lia. f_equal. lia. }
  lia.
Qed.

Lemma digits_unique p d :
  2 ^ (d - 1) <= Z.pos p < 2 ^ d -> Z.pos (digits2_pos p) = d.
Proof.
  intros [Hlo Hhi]. pose proof (digits_bounds p) as [Hlo' Hhi'].
  assert (0 < d).
  { destruct (Z_lt_le_dec 0 d); [done|].
    assert (2 ^ d <= 2 ^ 0) by (apply Z.pow_le_mono_r; lia).
    change (2 ^ 0) with 1 in *. lia. }
  assert (d - 1 < Z.pos (digits2_pos p)).
  { apply (Z.pow_lt_mono_r_iff 2); lia. }
  assert (Z.pos (digits2_pos p) - 1 < d).
  { apply (Z.pow_lt_mono_r_iff 2); lia. }
  lia.
Qed.

Lemma iter_xO p k : Z.pos (Pos.iter xO p k) = Z.pos p * 2 ^ Z.pos k.
Proof.
  induction k as [|k IH] using Pos.peano_ind.
  - cbn. lia.
  - rewrite Pos.iter_succ, Pos2Z.inj_xO, IH, Pos2Z.inj_succ, Z.pow_succ_r by lia.
    lia.
Qed.

Lemma fexp_normal e : -1021 <= e -> fexp prec emax e = e - 53.
Proof. unfold fexp, emin, prec, emax. lia. Qed.

(** A full mantissa needs no rounding. *)
Lemma round_aux_full m e :
  Z.pos (digits2_pos m) = 53 -> -1074 <= e <= 971 ->
  binary_round_aux prec emax false (Z.pos m) e loc_Exact = S754_finite false m e.
Proof.
  intros Hd He. unfold binary_round_aux, shr_fexp.
  cbn [Zdigits2 shr_record_of_loc]. rewrite Hd.
  rewrite fexp_normal by lia.
  replace (53 + e - 53 - e) with 0 by lia. cbn [shr shr_m loc_of_shr_record
    round_nearest_even Zdigits2 shr_record_of_loc].
  rewrite Hd, fexp_normal by lia.
  replace (53 + e - 53 - e) with 0 by lia. cbn [shr shr_m].
  unfold prec, emax. destruct (Z.leb_spec e (1024 - 53)); [done|lia].
Qed.

(** A positive integer below 2^53 converts exactly, to a float with a full
    mantissa. *)
Lemma normalize_exact a :
  0 < a < 2 ^ 53 ->
  exists m e,
    binary_normalize prec emax a 0 false = S754_finite false m e /\
    -52 <= e <= 0 /\
    Z.pos m = a * 2 ^ (- e) /\
    Z.pos (digits2_pos m) = 53.
Proof.
  intros [Hpos Hlt]. destruct a as [|p|p]; try lia.
  unfold binary_normalize, binary_round.
  pose proof (digits_bounds p) as [Hlo Hhi].
  set (d := Z.pos (digits2_pos p)) in *.
  assert (1 <= d <= 53) as Hd.
  { split; [subst d; lia|].
    destruct (Z_lt_le_dec 53 d); [|done].
    assert (2 ^ 53 <= 2 ^ (d - 1)) by (apply Z.pow_le_mono_r; lia). lia. }
  rewrite Z.add_0_r, fexp_normal by lia.
  unfold shl_align. rewrite Z.sub_0_r.
  destruct (d - 53) as [|k|k] eqn:Ek; try lia.
  - exists p, 0. rewrite round_aux_full by (fold d; lia).
    repeat split; lia.
  - assert (Z.pos (digits2_pos (Pos.iter xO p k)) = 53) as Hfull.
    { apply digits_unique. rewrite iter_xO.
      change (53 - 1) with 52.
      replace (Z.pos k) with (53 - d) by lia.
      assert (2 ^ 52 = 2 ^ (d - 1) * 2 ^ (53 - d)) as ->.
      { rewrite <- Z.pow_add_r by lia. f_equal. lia. }
      assert (2 ^ 53 = 2 ^ d * 2 ^ (53 - d)) as ->.
      { rewrite <- Z.pow_add_r by lia. f_equal. lia. }
      assert (0 < 2 ^ (53 - d)) by (apply Z.pow_pos_nonneg; lia).
      nia. }
    exists (Pos.iter xO p k), (Z.neg k).
    rewrite round_aux_full by (done || lia).
    repeat split; try lia; try done.
    rewrite iter_xO. reflexivity.
Qed.


Lemma Zdigits2_unique q d :
  0 < q -> 2 ^ (d - 1) <= q < 2 ^ d -> Zdigits2 q = d.
Proof.
  intros Hq H. destruct q as [|p|p]; try lia. cbn. by apply digits_unique.
Qed.

(** The quotient of two floats with full mantissas, before rounding. *)
Lemma div_full mx ex my ey :
  Z.pos (digits2_pos mx) = 53 -> Z.pos (digits2_pos my) = 53 ->
  -52 <= ex <= 0 -> -52 <= ey <= 0 ->
  div (S754_finite false mx ex) (S754_finite false my ey) =
    binary_round_aux prec emax false
      (Z.pos mx * 2 ^ 53 / Z.pos my) (ex - ey - 53)
      (new_location (Z.pos my) (Z.pos mx * 2 ^ 53 mod Z.pos my)).
Proof.
  intros Hx Hy Hex Hey. unfold div, SFdiv, SFdiv_core_binary.
  cbn [Zdigits2 xorb]. rewrite Hx, Hy.
  rewrite fexp_normal by lia.
  replace (Z.min (53 + ex - (53 + ey) - 53) (ex - ey)) with (ex - ey - 53)
    by lia.
  replace (ex - ey - (ex - ey - 53)) with 53 by lia.
  rewrite Z.shiftl_mul_pow2 by lia.
  unfold Z.div, Z.modulo.
  by destruct (Z.div_eucl (Z.pos mx * 2 ^ 53) (Z.pos my)) as [q r].
Qed.

Lemma new_location_spec D r :
  0 < D -> 0 <= r < D ->
  (r = 0 -> new_location D r = loc_Exact) /\
  (r <> 0 -> new_location D r <> loc_Exact) /\
  (D < 2 * r -> new_location D r = loc_Inexact Gt).
Proof.
  intros HD Hr. unfold new_location, new_location_even, new_location_odd.
  destruct (Z.even D) eqn:Ev; destruct (Z.eqb_spec r 0) as [->|Hne];
    repeat split; try done; try lia; intros Hgt.
  - by rewrite (proj2 (Z.compare_gt_iff _ _)) by lia.
  - by rewrite (proj2 (Z.compare_gt_iff _ _)) by lia.
Qed.

Lemma loc_roundtrip m l : loc_of_shr_record (shr_record_of_loc m l) = l.
Proof. by destruct l as [|[]]. Qed.

Lemma shr_m_of_loc m l : shr_m (shr_record_of_loc m l) = m.
Proof. by destruct l as [|[]]. Qed.

Lemma shr_1_spec m r s :
  0 < m ->
  shr_1 (Build_shr_record m r s) = Build_shr_record (m / 2) (Z.odd m) (r || s).
Proof.
  intros Hm. destruct m as [|[p|p|]|]; try lia; cbn [shr_1 Z.odd].
  - f_equal. rewrite Pos2Z.inj_xI.
    apply (Z.div_unique_pos _ _ _ 1); lia.
  - f_equal. rewrite Pos2Z.inj_xO.
    apply (Z.div_unique_pos _ _ _ 0); lia.
  - reflexivity.
Qed.

Lemma round_nearest_even_range m l :
  m <= round_nearest_even m l <= m + 1.
Proof. destruct l as [|[]]; cbn; try destruct (Z.even m); lia. Qed.

(** The last step of rounding: a mantissa of 53 bits is kept, the
    mantissa 2^53 that rounding up can produce is halved. *)
Lemma shr_fexp_final m1 e :
  2 ^ 52 <= m1 <= 2 ^ 53 -> -1074 <= e <= 960 ->
  exists m sh,
    (let '(mrs, e2) := shr_fexp prec emax m1 e loc_Exact in
     match shr_m mrs with
     | Z0 => S754_zero false
     | Z.pos m => if e2 <=? emax - prec then S754_finite false m e2
                  else S754_infinity false
     | Z.neg _ => S754_nan
     end) = S754_finite false m (e + sh) /\
    0 <= sh <= 1 /\ Z.pos m * 2 ^ sh = m1.
Proof.
  intros Hm He. unfold shr_fexp.
  destruct (Z.eq_dec m1 (2 ^ 53)) as [->|Hne].
  - exists (Z.to_pos (2 ^ 52)), 1.
    replace (Zdigits2 (2 ^ 53)) with 54 by reflexivity.
    rewrite fexp_normal by lia.
    replace (54 + e - 53 - e) with 1 by lia.
    cbn [shr shr_record_of_loc iter_pos].
    change (shr_m (shr_1 _)) with (2 ^ 52).
    change (2 ^ 52) with (Z.pos (Z.to_pos (2 ^ 52))) at 1.
    unfold emax, prec. cbv iota beta.
    destruct (Z.leb_spec (e + 1) (1024 - 53)); [|lia].
    split; [reflexivity|]. split; [lia|reflexivity].
  - assert (Zdigits2 m1 = 53) as Hd by (apply Zdigits2_unique; lia).
    destruct m1 as [|p|p]; try lia. exists p, 0.
    rewrite Hd, fexp_normal by lia.
    replace (53 + e - 53 - e) with 0 by lia.
    cbn [shr shr_record_of_loc shr_m]. unfold emax, prec.
    destruct (Z.leb_spec e (1024 - 53)); [|lia].
    rewrite Z.add_0_r. split; [reflexivity|]. split; lia.
Qed.


Lemma shr_fexp_53 q e l :
  2 ^ 52 <= q < 2 ^ 53 -> -1074 <= e ->
  shr_fexp prec emax q e l = (shr_record_of_loc q l, e).
Proof.
  intros Hq He. unfold shr_fexp.
  rewrite (Zdigits2_unique q 53) by lia.
  rewrite fexp_normal by lia.
  by replace (53 + e - 53 - e) with 0 by lia.
Qed.

Lemma shr_fexp_54 q e l :
  2 ^ 53 <= q < 2 ^ 54 -> -1074 <= e ->
  shr_fexp prec emax q e l = (shr_1 (shr_record_of_loc q l), e + 1).
Proof.
  intros Hq He. unfold shr_fexp.
  rewrite (Zdigits2_unique q 54) by lia.
  rewrite fexp_normal by lia.
  by replace (54 + e - 53 - e) with 1 by lia.
Qed.

(** Rounding a quotient of 53 or 54 bits.  [M] is the result in units of
    the quotient's last place. *)
Lemma round_aux_spec q e l :
  2 ^ 52 <= q < 2 ^ 54 -> -1074 <= e <= 900 ->
  exists m sh,
    binary_round_aux prec emax false q e l = S754_finite false m (e + sh) /\
    0 <= sh <= 2 /\
    (q < 2 ^ 53 ->
       q <= Z.pos m * 2 ^ sh <= q + 1 /\
       (l = loc_Exact -> Z.pos m * 2 ^ sh = q) /\
       (l = loc_Inexact Gt -> Z.pos m * 2 ^ sh = q + 1)) /\
    (2 ^ 53 <= q ->
       2 * (q / 2) <= Z.pos m * 2 ^ sh <= 2 * (q / 2) + 2 /\
       (l = loc_Exact -> Z.even q = true -> Z.pos m * 2 ^ sh = q) /\
       (l <> loc_Exact -> Z.odd q = true -> Z.pos m * 2 ^ sh = q + 1)).
Proof.
  intros Hq He. unfold binary_round_aux.
  destruct (Z_lt_le_dec q (2 ^ 53)) as [Hlt|Hge].
  - rewrite shr_fexp_53 by lia. rewrite shr_m_of_loc, loc_roundtrip.
    pose proof (round_nearest_even_range q l) as Hr.
    destruct (shr_fexp_final (round_nearest_even q l) e)
      as (m & sh & Heq & Hsh & HM); [lia|lia|].
    exists m, sh. split; [exact Heq|]. split; [lia|]. split; [|lia].
    intros _. rewrite HM. split; [lia|].
    split; intros ->; reflexivity.
  - rewrite shr_fexp_54 by lia.
    assert (exists r0 s0, shr_record_of_loc q l = Build_shr_record q r0 s0 /\
              (l = loc_Exact -> r0 = false /\ s0 = false) /\
              (l <> loc_Exact -> r0 || s0 = true))
      as (r0 & s0 & -> & Hex & Hin).
    { destruct l as [|[]]; cbn; eexists _, _; split; try reflexivity; split;
        intros; try done. }
    rewrite shr_1_spec by lia.
    cbn [shr_m].
    set (l' := loc_of_shr_record _).
    pose proof (round_nearest_even_range (q / 2) l') as Hr.
    assert (2 ^ 52 <= q / 2 < 2 ^ 53) as Hhalf.
    { split.
      - apply Z.div_le_lower_bound; lia.
      - apply Z.div_lt_upper_bound; lia. }
    destruct (shr_fexp_final (round_nearest_even (q / 2) l') (e + 1))
      as (m & sh & Heq & Hsh & HM); [lia|lia|].
    exists m, (sh + 1). split.
    { rewrite Heq. f_equal. lia. }
    split; [lia|]. split; [lia|]. intros _.
    rewrite Z.pow_add_r, Z.mul_assoc, HM by lia. change (2 ^ 1) with 2.
    split; [lia|]. split.
    + intros Hl Hev. destruct (Hex Hl) as [-> ->].
      subst l'. rewrite <- Z.negb_even, Hev. cbn.
      pose proof (Zeven_div2 q (proj1 (Zeven_bool_iff q) Hev)) as E.
      rewrite Z.div2_div in E. lia.
    + intros Hl Hodd. subst l'. rewrite Hodd, (Hin Hl). cbn.
      pose proof (Zodd_div2 q (proj1 (Zodd_bool_iff q) Hodd)) as E.
      rewrite Z.div2_div in E. lia.
Qed.


Lemma neg_div_ceil x y : 0 < y -> - ((- x) / y) = ceil_div x y.
Proof.
  intros Hy. unfold ceil_div.
  pose proof (Z.div_mod (- x) y ltac:(lia)) as E1.
  pose proof (Z.mod_pos_bound (- x) y Hy) as B1.
  apply (Z.div_unique_pos _ _ _ (y - 1 - (- x) mod y)); lia.
Qed.

Lemma ceil_div_exact k y : 0 < y -> ceil_div (k * y) y = k.
Proof.
  intros Hy. unfold ceil_div.
  symmetry. apply (Z.div_unique_pos _ _ _ (y - 1)); lia.
Qed.

Lemma ceil_div_between k x y :
  0 < y -> k * y < x <= (k + 1) * y -> ceil_div x y = k + 1.
Proof.
  intros Hy Hx. unfold ceil_div.
  symmetry. apply (Z.div_unique_pos _ _ _ (x - k * y - 1)); lia.
Qed.

(** The ceiling of a float, in units of [2^-j]. *)
Lemma ceil_finite_scaled m sh j :
  0 <= sh -> 1 <= j ->
  ceil_finite false m (sh - j) = ceil_div (Z.pos m * 2 ^ sh) (2 ^ j).
Proof.
  intros Hsh Hj. unfold ceil_finite, signed.
  assert (0 < 2 ^ j) by (apply Z.pow_pos_nonneg; lia).
  destruct (Z.leb_spec 0 (sh - j)).
  - replace sh with (sh - j + j) at 2 by lia.
    rewrite Z.pow_add_r, Z.mul_assoc by lia.
    by rewrite ceil_div_exact.
  - rewrite neg_div_ceil by (apply Z.pow_pos_nonneg; lia).
    replace (- (sh - j)) with (j - sh) by lia.
    assert (0 < 2 ^ sh) by (apply Z.pow_pos_nonneg; lia).
    assert (0 < 2 ^ (j - sh)) by (apply Z.pow_pos_nonneg; lia).
    assert (2 ^ j = 2 ^ sh * 2 ^ (j - sh)) as ->.
    { rewrite <- Z.pow_add_r by lia. f_equal. lia. }
    unfold ceil_div.
    rewrite <- Z.div_div by lia. f_equal.
    apply (Z.div_unique_pos _ _ _ (2 ^ sh - 1)); lia.
Qed.


(** The number-theoretic heart: rounding the quotient of two integers
    below 2^53 to 53 bits never crosses an integer, so the ceiling of the
    rounded quotient is the ceiling of the exact one. *)
Lemma ceil_of_rounded a b j q rr M l :
  0 < a < 2 ^ 53 -> 0 < b -> 1 <= j ->
  q = a * 2 ^ j / b -> rr = (a * 2 ^ j) mod b ->
  2 ^ 52 <= q < 2 ^ 54 ->
  (rr = 0 -> l = loc_Exact) ->
  (rr <> 0 -> l <> loc_Exact) ->
  (b < 2 * rr -> l = loc_Inexact Gt) ->
  (q < 2 ^ 53 ->
     q <= M <= q + 1 /\
     (l = loc_Exact -> M = q) /\
     (l = loc_Inexact Gt -> M = q + 1)) ->
  (2 ^ 53 <= q ->
     2 * (q / 2) <= M <= 2 * (q / 2) + 2 /\
     (l = loc_Exact -> Z.even q = true -> M = q) /\
     (l <> loc_Exact -> Z.odd q = true -> M = q + 1)) ->
  ceil_div M (2 ^ j) = ceil_div a b.
Proof.
  intros Ha Hb Hj Hq Hrr Hqr Hexact Hinexact Hgt H53 H54.
  assert (exists P2, 0 < P2 /\ 2 ^ j = 2 * P2) as (P2 & HP2 & HP).
  { exists (2 ^ (j - 1)). split; [apply Z.pow_pos_nonneg; lia|].
    rewrite <- Z.pow_succ_r by lia. f_equal. lia. }
  set (P := 2 ^ j) in *.
  pose proof (Z.div_mod a b ltac:(lia)) as Ea.
  pose proof (Z.mod_pos_bound a b Hb) as Ba.
  set (k := a / b) in *. set (r0 := a mod b) in *.
  pose proof (Z.div_mod (a * P) b ltac:(lia)) as ET.
  pose proof (Z.mod_pos_bound (a * P) b Hb) as BT.
  rewrite <- Hq, <- Hrr in ET. rewrite <- Hrr in BT.
  pose proof (Z.div_mod q 2 ltac:(lia)) as Eh.
  pose proof (Z.mod_pos_bound q 2 ltac:(lia)) as Bh.
  destruct (Z.eq_dec r0 0) as [Hr0|Hr0].
  - (* b divides a *)
    assert (q = k * P /\ rr = 0) as [Hqk Hrr0].
    { assert (q = k * P) by nia. split; [done|]. nia. }
    assert (Z.even q = true) as Hev.
    { rewrite Hqk, HP, Z.mul_assoc, (Z.mul_comm (k * 2)), Z.mul_assoc.
      rewrite Z.even_mul, Z.even_mul. by rewrite orb_true_r. }
    assert (M = q) as ->.
    { destruct (Z_lt_le_dec q (2 ^ 53)) as [Hlt|Hge].
      - by apply (H53 Hlt), Hexact.
      - by apply (H54 Hge); [apply Hexact|]. }
    rewrite Hqk, ceil_div_exact by lia.
    replace a with (k * b) by lia. by rewrite ceil_div_exact.
  - (* b does not divide a *)
    rewrite (ceil_div_between k a b) by lia.
    apply ceil_div_between; [lia|].
    assert (k * P <= q <= k * P + P - 1) as Hqb by nia.
    destruct (Z_lt_le_dec q (2 ^ 53)) as [Hlt|Hge].
    + destruct (H53 Hlt) as (HM & _ & Hup). split; [|lia].
      destruct (Z.eq_dec q (k * P)) as [Hqk|Hqk]; [|lia].
      assert (1 <= k) by nia.
      assert (rr = r0 * P) as Hrv by nia.
      assert (b < 2 * P) by nia.
      rewrite Hup; [lia|]. apply Hgt. nia.
    + destruct (H54 Hge) as (HM & _ & Hup).
      assert (b < P) by nia.
      split; [|nia].
      destruct (Z.eq_dec q (k * P + 1)) as [Hq1|Hq1].
      * assert (rr <> 0) as Hne by nia.
        rewrite Hup; [lia|by apply Hinexact|].
        rewrite Hq1, HP.
        replace (k * (2 * P2) + 1) with (1 + 2 * (k * P2)) by lia.
        by rewrite Z.odd_add_mul_2.
      * assert (k * P + 2 <= q) by nia. lia.
Qed.


(** [int64 (Ceil x)] for a float [x] whose ceiling is [K]. *)
Lemma to_int64_Ceil m e K :
  ceil_finite false m e = K -> 0 < K < 2 ^ 53 ->
  to_int64 (Ceil (S754_finite false m e)) = K.
Proof.
  intros HK HKr. unfold Ceil. rewrite HK.
  destruct (normalize_exact K HKr) as (mk & ek & -> & Hek & Hmk & _).
  unfold to_int64, trunc_finite, signed.
  assert (0 < 2 ^ (- ek)) by (apply Z.pow_pos_nonneg; lia).
  assert ((if 0 <=? ek then Z.pos mk * 2 ^ ek
           else Z.quot (Z.pos mk) (2 ^ (- ek))) = K) as ->.
  { destruct (Z.leb_spec 0 ek).
    - replace ek with 0 in * by lia. change (2 ^ (- 0)) with 1 in Hmk.
      change (2 ^ 0) with 1. lia.
    - rewrite Hmk. apply Z.quot_mul. lia. }
  unfold min_int64, max_int64.
  destruct (Z.leb_spec (- 2 ^ 63) K); [|lia].
  destruct (Z.leb_spec K (2 ^ 63 - 1)); [done|lia].
Qed.

Lemma ceil_div_range a b : 0 < a -> 0 < b -> 0 < ceil_div a b <= a.
Proof.
  intros Ha Hb. split; [by apply ceil_div_pos|].
  unfold ceil_div. apply Z.div_le_upper_bound; nia.
Qed.

End Float64Facts.

(** Below 2^53 the binary64 computation gives the exact ceiling. *)
Lemma getNumberOfChunks_ceil a b :
  0 <= a < 2 ^ 53 -> 0 < b < 2 ^ 53 -> getNumberOfChunks a b = ceil_div a b.
Proof.
  intros Ha Hb. unfold getNumberOfChunks.
  destruct (Float64Facts.normalize_exact b Hb)
    as (my & ey & Eb & Hey & Hmy & Hdy).
  fold (Float64.of_int b) in Eb. rewrite Eb.
  destruct (Z.eq_dec a 0) as [->|Hne].
  { rewrite ceil_div_0 by lia. reflexivity. }
  destruct (Float64Facts.normalize_exact a ltac:(lia))
    as (mx & ex & Ea & Hex & Hmx & Hdx).
  fold (Float64.of_int a) in Ea. rewrite Ea.
  rewrite Float64Facts.div_full by done.
  set (j := 53 - ex + ey).
  assert (0 < 2 ^ (- ey)) as Hc by (apply Z.pow_pos_nonneg; lia).
  assert (Z.pos mx * 2 ^ 53 = a * 2 ^ j * 2 ^ (- ey)) as EN.
  { rewrite Hmx, <- !Z.mul_assoc, <- !Z.pow_add_r by lia.
    do 2 f_equal. lia. }
  pose proof (Float64Facts.digits_bounds mx) as Bx.
  pose proof (Float64Facts.digits_bounds my) as By.
  rewrite Hdx in Bx. rewrite Hdy in By. change (53 - 1) with 52 in *.
  set (q := Z.pos mx * 2 ^ 53 / Z.pos my).
  set (r := Z.pos mx * 2 ^ 53 mod Z.pos my).
  assert (q = a * 2 ^ j / b) as Hq.
  { subst q. rewrite EN, Hmy. apply Z.div_mul_cancel_r; lia. }
  assert (r = (a * 2 ^ j) mod b * 2 ^ (- ey)) as Hr.
  { subst r. rewrite EN, Hmy. apply Z.mul_mod_distr_r; lia. }
  assert (2 ^ 52 <= q < 2 ^ 54) as Hqr.
  { subst q. split.
    - apply Z.div_le_lower_bound; lia.
    - apply Z.div_lt_upper_bound; lia. }
  pose proof (Z.mod_pos_bound (a * 2 ^ j) b ltac:(lia)) as Brr.
  destruct (Float64Facts.new_location_spec (Z.pos my) r ltac:(lia))
    as (Lex & Lin & Lgt).
  { subst r. apply Z.mod_pos_bound. lia. }
  destruct (Float64Facts.round_aux_spec q (ex - ey - 53)
              (new_location (Z.pos my) r) Hqr ltac:(lia))
    as (m & sh & -> & Hsh & H53 & H54).
  replace (ex - ey - 53 + sh) with (sh - j) by (subst j; lia).
  pose proof (Float64Facts.ceil_div_range a b ltac:(lia) ltac:(lia)) as HK.
  apply Float64Facts.to_int64_Ceil; [|lia].
  rewrite Float64Facts.ceil_finite_scaled by (subst j; lia).
  apply (Float64Facts.ceil_of_rounded a b j q ((a * 2 ^ j) mod b) _
           (new_location (Z.pos my) r)); try done; try lia.
  - intros H0. apply Lex. rewrite Hr, H0. lia.
  - intros H0. apply Lin. rewrite Hr. nia.
  - intros H0. apply Lgt. rewrite Hr, Hmy. nia.
Qed.

(** C7, as amended: for every [totalSize] with [0 <= totalSize < 2^53] and
    every [partSize] with [0 < partSize < 2^53] (the integers binary64
    holds exactly), [getNumberOfChunks] is the exact integer ceiling of
    [totalSize / partSize], and it is the number of ranges [getParts]
    emits and the number of ranges [generateChunks] emits when started
    with it. *)
Theorem getNumberOfChunks_exact n p :
  0 <= n < 2 ^ 53 -> 0 < p < 2 ^ 53 -> chunk_count_ok n p.
Proof.
  intros Hn Hp. pose proof (getNumberOfChunks_ceil n p Hn Hp) as Hc.
  assert (0 <= ceil_div n p) as Hnn.
  { unfold ceil_div. apply Z.div_pos; lia. }
  assert (ceil_div n p <= max_int64) as Hmax.
  { unfold ceil_div, max_int64.
    assert ((n + p - 1) / p <= n + p - 1) by (apply Z.div_le_upper_bound; nia).
    lia. }
  split; [done|]. split.
  - destruct (getParts_plan n p) as (l & Hrun & Hlen & _);
      [lia|lia|unfold max_int64; lia|].
    exists l. split.
    + exists (Z.to_nat (ceil_div n p)). by apply Hrun.
    + rewrite Hlen, Hc. lia.
  - rewrite generateChunks_length by (rewrite Hc; done).
    rewrite Hc. lia.
Qed.

Lemma getNumberOfChunks_exact_witness : chunk_count_ok (25 * MB) PartSize.
Proof.
  apply (getNumberOfChunks_exact (25 * MB) PartSize);
    split; vm_compute; congruence.
Defined.

(** C7, as stated, fails above 2^53: a size of 2^53 + 1 converts to the
    float 2^53, and in parts of 1 MB the count comes out as 2^33 where the
    exact ceiling is 2^33 + 1. *)
Lemma getNumberOfChunks_rounds : ~ chunk_count_ok huge_file MB.
Proof. intros [H _]. vm_compute in H. discriminate H. Qed.

(** There [getParts] emits one part more than the wait group was set
    to. *)
Lemma upload_count_short :
  exists l, emits huge_file MB l /\
            Z.of_nat (length l) = getNumberOfChunks huge_file MB + 1.
Proof.
  assert (0 <= huge_file) as H1 by (vm_compute; congruence).
  assert (0 < MB) as H2 by reflexivity.
  assert (huge_file + MB <= max_int64) as H3 by (vm_compute; congruence).
  assert (0 <= ceil_div huge_file MB) as H4 by (vm_compute; congruence).
  destruct (getParts_plan huge_file MB H1 H2 H3) as (l & Hrun & Hlen & _).
  exists l. split.
  - exists (Z.to_nat (ceil_div huge_file MB)). apply Hrun. apply le_n.
  - rewrite Hlen, Z2Nat.id by exact H4.
    vm_compute. reflexivity.
Qed.
